(** * libziprand: random access to stored members of ZIP archives

    A shallow embedding of [ziprand.c] (directory location, directory
    parsing, archive life cycle, file views) and of the in-memory byte source
    of the I/O helpers, followed by the properties of the specification that
    were checked against it.

    Conventions of the embedding.
    - Integers are [Z]; every fixed-width C operation has its wrap-around
      written out ([u16], [u32], [u64], [i64]).  [size_t] is taken to be 64
      bits wide.
    - A byte array that the C code owns (a stack array, a [malloc]ed block) is
      a list of cells; a cell is [None] while its content is indeterminate.
      Reading an indeterminate cell, or a cell outside the array, is undefined
      behaviour in C and makes the embedded function return [Undefined].
    - A byte source is a pure function of the requested offset and size: the
      archive sees a snapshot.  A call returns the callback's return value
      together with the bytes it stored at the start of the buffer.
    - [malloc]/[calloc]/[free] act on an explicit heap that records which
      blocks are live. *)

From Stdlib Require Import ZArith List Lia Bool.
From stdpp Require Import base numbers option list gmap sets.

Local Open Scope Z_scope.

(** ** Fixed-width integers *)

Definition two8 : Z := Eval cbv in 2 ^ 8.
Definition two16 : Z := Eval cbv in 2 ^ 16.
Definition two32 : Z := Eval cbv in 2 ^ 32.
Definition two63 : Z := Eval cbv in 2 ^ 63.
Definition two64 : Z := Eval cbv in 2 ^ 64.

Definition u8 (x : Z) : Z := x mod two8.
Definition u16 (x : Z) : Z := x mod two16.
Definition u32 (x : Z) : Z := x mod two32.
Definition u64 (x : Z) : Z := x mod two64.

(** Conversion of a value to [int64_t] (two's complement). *)
Definition i64 (x : Z) : Z := (x + two63) mod two64 - two63.

Definition INT64_MIN : Z := - two63.
Definition UINT64_MAX : Z := two64 - 1.

(** ** Return codes (ziprand.h) *)

Inductive ziprand_error_t : Type :=
| ZIPRAND_OK
| ZIPRAND_ERR_IO
| ZIPRAND_ERR_INVALID_ZIP
| ZIPRAND_ERR_NOT_FOUND
| ZIPRAND_ERR_COMPRESSED
| ZIPRAND_ERR_NOMEM
| ZIPRAND_ERR_INVALID_PARAM
| ZIPRAND_ERR_SEEK_BEYOND_END.


(** What a C function that returns a [ziprand_error_t] and fills
    out-parameters yields: [OK] with the out-parameters, or an error code. *)
Inductive status (A : Type) : Type :=
| OK (a : A)
| ERR (e : ziprand_error_t).
Arguments OK {A} a.
Arguments ERR {A} e.

(** A run of a C function either returns, or reaches undefined behaviour. *)
Inductive run (A : Type) : Type :=
| Returns (a : A)
| Undefined.
Arguments Returns {A} a.
Arguments Undefined {A}.

Global Instance run_ret : MRet run := fun A a => Returns a.
Global Instance run_bind : MBind run := fun A B k m =>
  match m with
  | Returns a => k a
  | Undefined => Undefined
  end.

Global Instance run_fmap : FMap run := fun A B f m =>
  match m with
  | Returns a => Returns (f a)
  | Undefined => Undefined
  end.

(** A byte read from an array: undefined when the cell is not there. *)
Definition defined {A : Type} (o : option A) : run A :=
  match o with
  | Some a => Returns a
  | None => Undefined
  end.

(** ** Byte arrays owned by the C code *)

Abbreviation buffer := (list (option Z)).

(** [uint8_t name[n];] or [malloc(n)]: [n] indeterminate cells. *)
Definition uninit (n : Z) : buffer := replicate (Z.to_nat n) None.

(** The callback stored [bytes] at the start of the array. *)
Definition store (buf : buffer) (bytes : list Z) : buffer :=
  ((fun b => Some (u8 b)) <$> take (length buf) bytes) ++ drop (length bytes) buf.

(** [buf[i]] *)
Definition load (buf : buffer) (i : Z) : option Z :=
  if i <? 0 then None else mjoin (buf !! Z.to_nat i).

(** ** Little-endian readers (read_u16_le, read_u32_le, read_u64_le) *)

Definition read_u16_le (p : buffer) (i : Z) : option Z :=
  b0 ← load p i; b1 ← load p (i + 1);
  Some (u16 (Z.lor b0 (Z.shiftl b1 8))).

Definition read_u32_le (p : buffer) (i : Z) : option Z :=
  b0 ← load p i; b1 ← load p (i + 1); b2 ← load p (i + 2); b3 ← load p (i + 3);
  Some (u32 (Z.lor (Z.lor (Z.lor b0 (Z.shiftl b1 8)) (Z.shiftl b2 16)) (Z.shiftl b3 24))).

Definition read_u64_le (p : buffer) (i : Z) : option Z :=
  b0 ← load p i; b1 ← load p (i + 1); b2 ← load p (i + 2); b3 ← load p (i + 3);
  b4 ← load p (i + 4); b5 ← load p (i + 5); b6 ← load p (i + 6); b7 ← load p (i + 7);
  Some (u64 (Z.lor (Z.lor (Z.lor (Z.lor (Z.lor (Z.lor (Z.lor
          b0 (Z.shiftl b1 8)) (Z.shiftl b2 16)) (Z.shiftl b3 24))
          (Z.shiftl b4 32)) (Z.shiftl b5 40)) (Z.shiftl b6 48)) (Z.shiftl b7 56))).

(** ** Byte sources (ziprand_io_t) *)

(** The outcome of one call of the read callback: its [int64_t] return value
    and the bytes it stored in the caller's buffer. *)
Record read_result : Type := mk_read { ret : Z; data : list Z }.

(** [read(ctx, offset, buffer, size)]; the context is part of the closure. *)
Definition ziprand_read_fn : Type := Z -> Z -> read_result.

(** [struct ziprand_io]: a null callback is [None]. [get_size] is the value
    the size callback returns. *)
Record ziprand_io_t : Type := mk_io {
  read : option ziprand_read_fn;
  get_size : option Z;
  close : bool
}.

(** ** Entries, archives, file views *)

(** [ziprand_entry_t]. [name] is the block [malloc]ed for the name with its
    content ([name_ptr] identifies the block on the heap). *)
Record ziprand_entry_t : Type := mk_entry {
  name_ptr : N;
  name : buffer;
  compressed_size : Z;
  uncompressed_size : Z;
  offset : Z;
  data_offset : Z;
  compression_method : Z
}.

(** [struct ziprand_archive]. The copied callbacks were checked to be
    non-null by [ziprand_open], so [io_read] is the function itself.
    [archive_ptr] and [entries_ptr] identify the two [calloc]ed blocks
    ([entries] is null until the table is allocated). *)
Record ziprand_archive_t : Type := mk_archive {
  archive_ptr : N;
  io_read : ziprand_read_fn;
  io_close : bool;
  entries_ptr : option N;
  entries : list ziprand_entry_t;
  entry_count : Z;
  total_size : Z
}.

(** [struct ziprand_file]. [entry] points into the entry table of the
    archive (the index of the entry); the archive is the one the operations
    are given. *)
Record ziprand_file_t : Type := mk_file {
  file_ptr : N;
  entry : nat;
  position : Z
}.

(** [entry->data_offset = v], [archive->entries[i] = e], [file->position = p] *)
Definition set_data_offset (e : ziprand_entry_t) (v : Z) : ziprand_entry_t :=
  mk_entry (name_ptr e) (name e) (compressed_size e) (uncompressed_size e) (offset e) v
    (compression_method e).

Definition set_entry (a : ziprand_archive_t) (i : nat) (e : ziprand_entry_t)
  : ziprand_archive_t :=
  mk_archive (archive_ptr a) (io_read a) (io_close a) (entries_ptr a)
    (<[i := e]> (entries a)) (entry_count a) (total_size a).

Definition set_position (f : ziprand_file_t) (p : Z) : ziprand_file_t :=
  mk_file (file_ptr f) (entry f) p.

(** A call [archive->io.read(ctx, off, buf, size)] on an array [buf] of the
    C code: the return value and the array afterwards.  At most [size] bytes
    are stored. *)
Definition read_into (a : ziprand_archive_t) (off : Z) (buf : buffer) (size : Z)
  : Z * buffer :=
  let r := io_read a off size in
  (ret r, store buf (take (Z.to_nat size) (data r))).

(** ** ZIP signatures *)

Definition EOCD_SIGNATURE : Z := 0x06054b50.
Definition ZIP64_EOCD_SIGNATURE : Z := 0x06064b50.
Definition ZIP64_EOCD_LOCATOR_SIGNATURE : Z := 0x07064b50.
Definition CENTRAL_DIR_SIGNATURE : Z := 0x02014b50.
Definition LOCAL_HEADER_SIGNATURE : Z := 0x04034b50.

(** ** find_eocd *)

(** The inner [for] loop over one chunk: [k] candidate positions are left,
    the next one is [i = k - 1].  [None]: the loop ended without a match;
    [Some r]: [find_eocd] returned [r] from inside the loop. *)
Fixpoint find_eocd_scan (a : ziprand_archive_t) (buf : buffer)
    (bytes_read read_pos : Z) (k : nat) : run (option (status (Z * Z))) :=
  match k with
  | O => Returns None
  | S k' =>
      let i := Z.of_nat k' in
      sig ← defined (read_u32_le buf i);
      if sig =? EOCD_SIGNATURE then
        let eocd_offset := u64 (read_pos + i) in
        if i + 10 <? bytes_read then
          n ← defined (read_u16_le buf (i + 10));
          Returns (Some (OK (eocd_offset, n)))
        else
          let '(r, entry_buf) := read_into a (u64 (eocd_offset + 10)) (uninit 2) 2 in
          if negb (r =? 2) then Returns (Some (ERR ZIPRAND_ERR_IO))
          else
            n ← defined (read_u16_le entry_buf 0);
            Returns (Some (OK (eocd_offset, n)))
      else find_eocd_scan a buf bytes_read read_pos k'
  end.

(** The [while] loop.  [buf] is the 8192-byte stack array, which keeps the
    previous chunk between iterations.  Every iteration lowers [search_pos]
    by at least one, so [fuel] iterations are enough when [fuel] exceeds the
    length of the window (see [find_eocd_loop_fuel]). *)
Fixpoint find_eocd_loop (a : ziprand_archive_t) (buf : buffer)
    (file_size max_search search_pos : Z) (fuel : nat) : run (status (Z * Z)) :=
  match fuel with
  | O => Returns (ERR ZIPRAND_ERR_INVALID_ZIP)
  | S fuel' =>
      if search_pos >? file_size - max_search then
        let chunk_size := search_pos - (file_size - max_search) in
        let chunk_size := if chunk_size >? 8192 then 8192 else chunk_size in
        let read_pos := search_pos - chunk_size in
        let '(bytes_read, buf) := read_into a read_pos buf chunk_size in
        if bytes_read <=? 0 then Returns (ERR ZIPRAND_ERR_IO)
        else
          found ← find_eocd_scan a buf bytes_read read_pos
                        (Z.to_nat (bytes_read - 4 + 1));
          match found with
          | Some r => Returns r
          | None =>
              let search_pos := read_pos in
              if search_pos <? 3 then Returns (ERR ZIPRAND_ERR_INVALID_ZIP)
              else find_eocd_loop a buf file_size max_search search_pos fuel'
          end
      else Returns (ERR ZIPRAND_ERR_INVALID_ZIP)
  end.

Definition find_eocd (a : ziprand_archive_t) : run (status (Z * Z)) :=
  let file_size := total_size a in
  let max_search := if file_size <? 65557 then file_size else 65557 in
  let search_pos := file_size in
  find_eocd_loop a (uninit 8192) file_size max_search search_pos
    (S (Z.to_nat max_search)).

(** ** read_zip64_eocd *)

(** [for (int i = 0; i <= 16; i++)] over the 20-byte array: [k] iterations
    are left.  The result is [zip64_eocd_offset], 0 when no locator
    signature was seen. *)
Fixpoint zip64_locator_scan (search_buf : buffer) (i : Z) (k : nat) : run Z :=
  match k with
  | O => Returns 0
  | S k' =>
      sig ← defined (read_u32_le search_buf i);
      if sig =? ZIP64_EOCD_LOCATOR_SIGNATURE
      then defined (read_u64_le search_buf (i + 8))
      else zip64_locator_scan search_buf (i + 1) k'
  end.

Definition read_zip64_eocd (a : ziprand_archive_t) (eocd_offset : Z)
  : run (status (Z * Z)) :=
  let search_start := if eocd_offset >? 20 then eocd_offset - 20 else 0 in
  let '(r, search_buf) := read_into a search_start (uninit 20) 20 in
  if negb (r =? 20) then Returns (ERR ZIPRAND_ERR_IO)
  else
    zip64_eocd_offset ← zip64_locator_scan search_buf 0 17;
    if zip64_eocd_offset =? 0 then Returns (ERR ZIPRAND_ERR_INVALID_ZIP)
    else
      let '(r, buf) := read_into a zip64_eocd_offset (uninit 56) 56 in
      if negb (r =? 56) then Returns (ERR ZIPRAND_ERR_IO)
      else
        sig ← defined (read_u32_le buf 0);
        if negb (sig =? ZIP64_EOCD_SIGNATURE) then Returns (ERR ZIPRAND_ERR_INVALID_ZIP)
        else
          cd_offset ← defined (read_u64_le buf 48);
          num_entries ← defined (read_u64_le buf 32);
          Returns (OK (cd_offset, num_entries)).

(** ** get_cd_info *)

Definition get_cd_info (a : ziprand_archive_t) : run (status (Z * Z)) :=
  err ← find_eocd a;
  match err with
  | ERR e => Returns (ERR e)
  | OK (eocd_offset, entries_16) =>
      let '(r, eocd_buf) := read_into a eocd_offset (uninit 22) 22 in
      if negb (r =? 22) then Returns (ERR ZIPRAND_ERR_IO)
      else
        cd_offset_32 ← defined (read_u32_le eocd_buf 16);
        if cd_offset_32 =? 0xFFFFFFFF
        then read_zip64_eocd a eocd_offset
        else Returns (OK (cd_offset_32, entries_16))
  end.

(** ** The heap *)

(** [blocks]: the blocks allocated and not yet freed, with their sizes.
    [next]: the number of the next allocation request, which names the block
    it returns.  [can_alloc n size]: whether request number [n], of [size]
    bytes, succeeds. *)
Record heap : Type := mk_heap {
  blocks : gmap N Z;
  next : N;
  can_alloc : N -> Z -> bool
}.

Definition malloc (size : Z) (h : heap) : option N * heap :=
  if can_alloc h (next h) size
  then (Some (next h), mk_heap (<[next h := size]> (blocks h)) (N.succ (next h)) (can_alloc h))
  else (None, mk_heap (blocks h) (N.succ (next h)) (can_alloc h)).

Definition free (p : N) (h : heap) : heap :=
  mk_heap (delete p (blocks h)) (next h) (can_alloc h).

(** Object sizes on an LP64 platform; they only reach [can_alloc]. *)
Definition sizeof_archive : Z := 56.
Definition sizeof_entry : Z := 48.
Definition sizeof_file : Z := 24.

(** ** read_cd_entry *)

(** The [while (pos + 4 <= extra_len)] loop over the extra field.  [sizes] is
    (uncompressed_size, compressed_size, local_offset).  [pos] grows by at
    least 4 in every iteration. *)
Fixpoint parse_zip64_extra (extra : buffer) (extra_len pos : Z)
    (sizes : Z * Z * Z) (fuel : nat) : run (Z * Z * Z) :=
  match fuel with
  | O => Returns sizes
  | S fuel' =>
      if pos + 4 <=? extra_len then
        header_id ← defined (read_u16_le extra pos);
        data_size ← defined (read_u16_le extra (pos + 2));
        if header_id =? 0x0001 then
          let '(uncompressed_size, compressed_size, local_offset) := sizes in
          let field_pos := pos + 4 in
          '(uncompressed_size, field_pos) ←
            (if (uncompressed_size =? 0xFFFFFFFF) && (field_pos + 8 <=? pos + 4 + data_size)
             then v ← defined (read_u64_le extra field_pos); Returns (v, field_pos + 8)
             else Returns (uncompressed_size, field_pos));
          '(compressed_size, field_pos) ←
            (if (compressed_size =? 0xFFFFFFFF) && (field_pos + 8 <=? pos + 4 + data_size)
             then v ← defined (read_u64_le extra field_pos); Returns (v, field_pos + 8)
             else Returns (compressed_size, field_pos));
          local_offset ←
            (if (local_offset =? 0xFFFFFFFF) && (field_pos + 8 <=? pos + 4 + data_size)
             then defined (read_u64_le extra field_pos)
             else Returns local_offset);
          Returns (uncompressed_size, compressed_size, local_offset)
        else parse_zip64_extra extra extra_len (pos + 4 + data_size) sizes fuel'
      else Returns sizes
  end.

(** [read_cd_entry(archive, &offset, entry)]: the heap afterwards and, on
    success, the entry and the advanced offset. *)
Definition read_cd_entry (a : ziprand_archive_t) (h : heap) (off : Z)
  : run (heap * status (ziprand_entry_t * Z)) :=
  let '(r, header) := read_into a off (uninit 46) 46 in
  if negb (r =? 46) then Returns (h, ERR ZIPRAND_ERR_IO)
  else
    sig ← defined (read_u32_le header 0);
    if negb (sig =? CENTRAL_DIR_SIGNATURE) then Returns (h, ERR ZIPRAND_ERR_INVALID_ZIP)
    else
      method ← defined (read_u16_le header 10);
      filename_len ← defined (read_u16_le header 28);
      extra_len ← defined (read_u16_le header 30);
      comment_len ← defined (read_u16_le header 32);
      compressed_size ← defined (read_u32_le header 20);
      uncompressed_size ← defined (read_u32_le header 24);
      local_offset ← defined (read_u32_le header 42);
      match malloc (filename_len + 1) h with
      | (None, h) => Returns (h, ERR ZIPRAND_ERR_NOMEM)
      | (Some p, h) =>
          let '(r, nm) := read_into a (u64 (off + 46)) (uninit (filename_len + 1)) filename_len in
          if negb (r =? filename_len) then Returns (free p h, ERR ZIPRAND_ERR_IO)
          else
            let nm := <[Z.to_nat filename_len := Some 0]> nm in
            let finish (h : heap) (sizes : Z * Z * Z) :=
              let '(uncompressed_size, compressed_size, local_offset) := sizes in
              Returns (h, OK (mk_entry p nm compressed_size uncompressed_size local_offset 0 method,
                              u64 (off + 46 + filename_len + extra_len + comment_len))) in
            if extra_len >? 0 then
              match malloc extra_len h with
              | (None, h) => Returns (free p h, ERR ZIPRAND_ERR_NOMEM)
              | (Some q, h) =>
                  let '(r, extra) := read_into a (u64 (off + 46 + filename_len))
                                       (uninit extra_len) extra_len in
                  if negb (r =? extra_len) then Returns (free p (free q h), ERR ZIPRAND_ERR_IO)
                  else
                    sizes ←
                      (if (uncompressed_size =? 0xFFFFFFFF) || (compressed_size =? 0xFFFFFFFF)
                          || (local_offset =? 0xFFFFFFFF)
                       then parse_zip64_extra extra extra_len 0
                              (uncompressed_size, compressed_size, local_offset)
                              (S (Z.to_nat extra_len))
                       else Returns (uncompressed_size, compressed_size, local_offset));
                    finish (free q h) sizes
              end
            else finish h (uncompressed_size, compressed_size, local_offset)
      end.

(** ** get_data_offset *)

(** On success the entry with its [data_offset] set. *)
Definition get_data_offset (a : ziprand_archive_t) (e : ziprand_entry_t)
  : run (status ziprand_entry_t) :=
  let '(r, local_header) := read_into a (offset e) (uninit 30) 30 in
  if negb (r =? 30) then Returns (ERR ZIPRAND_ERR_IO)
  else
    sig ← defined (read_u32_le local_header 0);
    if negb (sig =? LOCAL_HEADER_SIGNATURE) then Returns (ERR ZIPRAND_ERR_INVALID_ZIP)
    else
      filename_len ← defined (read_u16_le local_header 26);
      extra_len ← defined (read_u16_le local_header 28);
      Returns (OK (set_data_offset e (u64 (offset e + 30 + filename_len + extra_len)))).

(** ** ziprand_open *)

(** [for (j = 0; j < i; j++) free(archive->entries[j].name);] *)
Definition free_names (es : list ziprand_entry_t) (h : heap) : heap :=
  foldl (fun h e => free (name_ptr e) h) h es.

(** The [for] loop of [ziprand_open] with its clean-up of the names on
    failure.  [parsed] holds entries[0..i), the latest first; [n] entries are
    still to be read. *)
Fixpoint open_entries (a : ziprand_archive_t) (h : heap) (off : Z)
    (parsed : list ziprand_entry_t) (n : nat)
  : run (heap * status (list ziprand_entry_t)) :=
  match n with
  | O => Returns (h, OK (reverse parsed))
  | S n' =>
      '(h, r) ← read_cd_entry a h off;
      match r with
      | OK (e, off) => open_entries a h off (e :: parsed) n'
      | ERR c => Returns (free_names (reverse parsed) h, ERR c)
      end
  end.

(** The archive block after [calloc], the copy of the callbacks and the size
    snapshot: no entry table yet. *)
Definition fresh_archive (pa : N) (io_read : ziprand_read_fn) (io_close : bool) (size : Z)
  : ziprand_archive_t :=
  mk_archive pa io_read io_close None [] 0 (u64 size).

(** [ziprand_open(io)]: the heap afterwards and the archive, [None] for a
    null pointer. *)
Definition ziprand_open (io : option ziprand_io_t) (h : heap)
  : run (heap * option ziprand_archive_t) :=
  match io with
  | Some (mk_io (Some io_read) (Some io_get_size) io_close) =>
      match malloc (1 * sizeof_archive) h with
      | (None, h) => Returns (h, None)
      | (Some pa, h) =>
          let size := io_get_size in
          if size <? 0 then Returns (free pa h, None)
          else
            let archive := fresh_archive pa io_read io_close size in
            r ← get_cd_info archive;
            match r with
            | ERR _ => Returns (free pa h, None)
            | OK (cd_offset, num_entries) =>
                match malloc (num_entries * sizeof_entry) h with
                | (None, h) => Returns (free pa h, None)
                | (Some pe, h) =>
                    '(h, r) ← open_entries archive h cd_offset [] (Z.to_nat num_entries);
                    match r with
                    | ERR _ => Returns (free pa (free pe h), None)
                    | OK es =>
                        Returns (h, Some (mk_archive pa io_read io_close (Some pe) es
                                            num_entries (u64 size)))
                    end
                end
            end
      end
  | _ => Returns (h, None)
  end.

(** [ziprand_close(archive)]: the heap afterwards and how often the close
    callback of the source was called. *)
Definition ziprand_close (archive : option ziprand_archive_t) (h : heap) : heap * nat :=
  match archive with
  | None => (h, O)
  | Some a =>
      let closed := if io_close a then 1%nat else O in
      let h := free_names (take (Z.to_nat (entry_count a)) (entries a)) h in
      let h := match entries_ptr a with Some pe => free pe h | None => h end in
      (free (archive_ptr a) h, closed)
  end.

(** ** Lookup *)

Definition ziprand_get_entry_count (archive : option ziprand_archive_t) : Z :=
  match archive with
  | Some a => i64 (entry_count a)
  | None => -1
  end.

(** The result points at [entries[index]]. *)
Definition ziprand_get_entry_by_index (archive : option ziprand_archive_t) (index : Z)
  : option nat :=
  match archive with
  | None => None
  | Some a => if index >=? entry_count a then None else Some (Z.to_nat index)
  end.

(** [strcmp(s, t) == 0] for the name block [s] of an entry and a C string
    whose characters are [t] (a zero in [t] ends it). *)
Fixpoint streq (s : buffer) (t : list Z) : run bool :=
  match s with
  | Some c :: s' =>
      match t with
      | [] => Returns (c =? 0)
      | d :: t' =>
          if u8 d =? 0 then Returns (c =? 0)
          else if c =? u8 d then streq s' t'
          else Returns false
      end
  | _ => Undefined
  end.

Fixpoint find_entry_from (es : list ziprand_entry_t) (nm : list Z) (i : nat)
  : run (option nat) :=
  match es with
  | [] => Returns None
  | e :: es' =>
      hit ← streq (name e) nm;
      if (hit : bool) then Returns (Some i) else find_entry_from es' nm (S i)
  end.

Definition ziprand_find_entry (archive : option ziprand_archive_t) (nm : option (list Z))
  : run (option nat) :=
  match archive, nm with
  | Some a, Some nm =>
      find_entry_from (take (Z.to_nat (entry_count a)) (entries a)) nm O
  | _, _ => Returns None
  end.

(** ** File views *)

(** The end of [ziprand_fopen]: the view is allocated and set up. *)
Definition fopen_view (a : ziprand_archive_t) (i : nat) (h : heap)
  : run (heap * option ziprand_archive_t * option ziprand_file_t) :=
  match malloc sizeof_file h with
  | (None, h) => Returns (h, Some a, None)
  | (Some pf, h) => Returns (h, Some a, Some (mk_file pf i 0))
  end.

(** [ziprand_fopen(archive, entry)]: the heap and the archive afterwards
    (the entry may have had its data offset resolved) and the view, [None]
    for a null pointer. *)
Definition ziprand_fopen (archive : option ziprand_archive_t) (entry : option nat) (h : heap)
  : run (heap * option ziprand_archive_t * option ziprand_file_t) :=
  match archive, entry with
  | Some a, Some i =>
      e ← defined (entries a !! i);
      if negb (compression_method e =? 0) then Returns (h, Some a, None)
      else if data_offset e =? 0 then
        r ← get_data_offset a e;
        match r with
        | ERR _ => Returns (h, Some a, None)
        | OK e' => fopen_view (set_entry a i e') i h
        end
      else fopen_view a i h
  | _, _ => Returns (h, archive, None)
  end.

Definition ziprand_fopen_by_name (archive : option ziprand_archive_t) (nm : option (list Z))
    (h : heap)
  : run (heap * option ziprand_archive_t * option ziprand_file_t) :=
  entry ← ziprand_find_entry archive nm;
  match entry with
  | None => Returns (h, archive, None)
  | Some i => ziprand_fopen archive (Some i) h
  end.

(** The operations on a view receive a [ziprand_file_t*] through which they
    could write, so each of them returns the view afterwards next to its
    result. *)

(** [ziprand_fread_at(file, offset, buffer, size)]; [buffer] tells whether
    the buffer pointer is non-null.  The result is the return value with the
    bytes stored in the caller's buffer. *)
Definition ziprand_fread_at (a : ziprand_archive_t) (file : option ziprand_file_t)
    (off : Z) (buffer : bool) (size : Z) : run (read_result * option ziprand_file_t) :=
  match file with
  | Some f =>
      if negb buffer then Returns (mk_read (-1) [], file)
      else
        e ← defined (entries a !! entry f);
        if off >=? uncompressed_size e then Returns (mk_read 0 [], file)
        else
          let remaining := uncompressed_size e - off in
          let to_read := if size <? remaining then size else remaining in
          Returns (io_read a (u64 (data_offset e + off)) to_read, file)
  | None => Returns (mk_read (-1) [], file)
  end.

(** [ziprand_fread(file, buffer, size)] *)
Definition ziprand_fread (a : ziprand_archive_t) (file : option ziprand_file_t)
    (buffer : bool) (size : Z) : run (read_result * option ziprand_file_t) :=
  match file with
  | None => Returns (mk_read (-1) [], None)
  | Some f =>
      '(result, file) ← ziprand_fread_at a file (position f) buffer size;
      match file with
      | Some f =>
          if ret result >? 0
          then Returns (result, Some (set_position f (u64 (position f + ret result))))
          else Returns (result, Some f)
      | None => Returns (result, None)
      end
  end.

(** [whence] values of <stdio.h>. *)
Definition SEEK_SET : Z := 0.
Definition SEEK_CUR : Z := 1.
Definition SEEK_END : Z := 2.

(** [-offset] on [int64_t]; at [INT64_MIN] the negation overflows and the
    compilers in use wrap it around. *)
Definition neg64 (x : Z) : Z := i64 (- x).

(** The [switch] of [ziprand_fseek]: [new_pos], or [None] in the [default]
    case. *)
Definition fseek_new_pos (f : ziprand_file_t) (e : ziprand_entry_t) (off whence : Z)
  : option Z :=
  if whence =? SEEK_SET then Some (u64 off)
  else if whence =? SEEK_CUR then
    if off >=? 0 then Some (u64 (position f + off))
    else if u64 (neg64 off) >? position f then Some 0
    else Some (u64 (position f - u64 (neg64 off)))
  else if whence =? SEEK_END then
    if off >=? 0 then Some (u64 (uncompressed_size e + off))
    else if u64 (neg64 off) >? uncompressed_size e then Some 0
    else Some (u64 (uncompressed_size e - u64 (neg64 off)))
  else None.

(** [ziprand_fseek(file, offset, whence)]: the return value and the view
    afterwards. *)
Definition ziprand_fseek (a : ziprand_archive_t) (file : option ziprand_file_t)
    (off whence : Z) : run (Z * option ziprand_file_t) :=
  match file with
  | None => Returns (-1, None)
  | Some f =>
      e ← defined (entries a !! entry f);
      match fseek_new_pos f e off whence with
      | None => Returns (-1, Some f)
      | Some new_pos =>
          if new_pos >? uncompressed_size e then Returns (-1, Some f)
          else Returns (i64 new_pos, Some (set_position f new_pos))
      end
  end.

Definition ziprand_ftell (file : option ziprand_file_t) : Z * option ziprand_file_t :=
  match file with
  | Some f => (i64 (position f), file)
  | None => (-1, file)
  end.

Definition ziprand_fsize (a : ziprand_archive_t) (file : option ziprand_file_t)
  : run (Z * option ziprand_file_t) :=
  match file with
  | Some f => e ← defined (entries a !! entry f); Returns (i64 (uncompressed_size e), file)
  | None => Returns (-1, file)
  end.

Definition ziprand_fclose (file : option ziprand_file_t) (h : heap) : heap :=
  match file with
  | Some f => free (file_ptr f) h
  | None => h
  end.

(** ** The in-memory byte source (ziprand_io_memory) *)

(** [memory_read]; [mem i] is [data[i]]. *)
Definition memory_read (mem : Z -> Z) (msize : Z) : ziprand_read_fn :=
  fun off size =>
    if off >=? msize then mk_read 0 []
    else
      let remaining := msize - off in
      let to_read := if size <? remaining then size else remaining in
      mk_read to_read (mem <$> seqZ off to_read).

(** [ziprand_io_memory(data, size)], [None] when it returns a null pointer.
    The two small blocks it allocates are not tracked. *)
Definition ziprand_io_memory (mem : option (Z -> Z)) (msize : Z) : option ziprand_io_t :=
  match mem with
  | None => None
  | Some mem =>
      if msize =? 0 then None
      else Some (mk_io (Some (memory_read mem msize)) (Some (i64 msize)) true)
  end.

(** A memory region holding the bytes of a list. *)
Definition bytes (l : list Z) : Z -> Z := fun i => nth (Z.to_nat i) l 0.

(** ** Sample archives *)

(** An empty heap on which every allocation succeeds. *)
Definition heap0 : heap := mk_heap ∅ 0%N (fun _ _ => true).

(** The archive of the concrete scenario of the specification: two stored
    entries, "a.txt" with content "hello" and "b.bin" with the 300 bytes
    0x00..0xFF repeating. *)
Definition sample_zip : list Z :=
  [
    80; 75; 3; 4; 20; 0; 0; 0; 0; 0; 0; 0; 33; 0; 134; 166; 16; 54; 5; 0; 0; 0; 5; 0; 0; 0;
    5; 0; 0; 0; 97; 46; 116; 120; 116; 104; 101; 108; 108; 111; 80; 75; 3; 4; 20; 0; 0; 0;
    0; 0; 0; 0; 33; 0; 238; 252; 188; 58; 44; 1; 0; 0; 44; 1; 0; 0; 5; 0; 0; 0; 98; 46; 98;
    105; 110
  ] ++ ((fun i => i mod 256) <$> seqZ 0 300) ++ [
    80; 75; 1; 2; 20; 0; 20; 0; 0; 0; 0; 0; 0; 0; 33; 0; 134; 166; 16; 54; 5; 0; 0; 0; 5; 0;
    0; 0; 5; 0; 0; 0; 0; 0; 0; 0; 0; 0; 0; 0; 128; 1; 0; 0; 0; 0; 97; 46; 116; 120; 116; 80;
    75; 1; 2; 20; 0; 20; 0; 0; 0; 0; 0; 0; 0; 33; 0; 238; 252; 188; 58; 44; 1; 0; 0; 44; 1;
    0; 0; 5; 0; 0; 0; 0; 0; 0; 0; 0; 0; 0; 0; 128; 1; 40; 0; 0; 0; 98; 46; 98; 105; 110; 80;
    75; 5; 6; 0; 0; 0; 0; 2; 0; 2; 0; 102; 0; 0; 0; 119; 1; 0; 0; 0; 0
  ].

(** "a.txt" stored as above followed by "c.z", 36 bytes deflated to 5. *)
Definition mixed_zip : list Z :=
  [
    80; 75; 3; 4; 20; 0; 0; 0; 0; 0; 0; 0; 33; 0; 134; 166; 16; 54; 5; 0; 0; 0; 5; 0; 0; 0;
    5; 0; 0; 0; 97; 46; 116; 120; 116; 104; 101; 108; 108; 111; 80; 75; 3; 4; 20; 0; 0; 0;
    8; 0; 0; 0; 33; 0; 194; 124; 118; 196; 5; 0; 0; 0; 36; 0; 0; 0; 3; 0; 0; 0; 99; 46; 122;
    75; 76; 36; 12; 0; 80; 75; 1; 2; 20; 0; 20; 0; 0; 0; 0; 0; 0; 0; 33; 0; 134; 166; 16;
    54; 5; 0; 0; 0; 5; 0; 0; 0; 5; 0; 0; 0; 0; 0; 0; 0; 0; 0; 0; 0; 128; 1; 0; 0; 0; 0; 97;
    46; 116; 120; 116; 80; 75; 1; 2; 20; 0; 20; 0; 0; 0; 8; 0; 0; 0; 33; 0; 194; 124; 118;
    196; 5; 0; 0; 0; 36; 0; 0; 0; 3; 0; 0; 0; 0; 0; 0; 0; 0; 0; 0; 0; 128; 1; 40; 0; 0; 0;
    99; 46; 122; 80; 75; 5; 6; 0; 0; 0; 0; 2; 0; 2; 0; 100; 0; 0; 0; 78; 0; 0; 0; 0; 0
  ].

Definition memory_source (l : list Z) : option ziprand_io_t :=
  ziprand_io_memory (Some (bytes l)) (Z.of_nat (length l)).

(** What [ziprand_open] returns on a source, with a default for the cases
    that do not arise on the samples. *)
Definition opened (l : list Z) : heap * ziprand_archive_t :=
  match ziprand_open (memory_source l) heap0 with
  | Returns (h, Some a) => (h, a)
  | _ => (heap0, mk_archive 0%N (fun _ _ => mk_read (-1) []) false None [] 0 0)
  end.

Definition sample_archive : ziprand_archive_t := (opened sample_zip).2.
Definition mixed_archive : ziprand_archive_t := (opened mixed_zip).2.

(** The archive and the view after [ziprand_fopen] of entry [i] of a freshly
    opened source, with a default as above. *)
Definition fopened (l : list Z) (i : nat) : ziprand_archive_t * ziprand_file_t :=
  match ziprand_fopen (Some (opened l).2) (Some i) (opened l).1 with
  | Returns (_, Some a, Some f) => (a, f)
  | _ => ((opened l).2, mk_file 0%N i 0)
  end.

(** "a.txt" and "b.bin" of the sample archive, opened. *)
Definition sample_a : ziprand_archive_t * ziprand_file_t := fopened sample_zip 0.

(** One stored entry "x" whose ZIP64 extra field declares an uncompressed
    size of 2^64 - 1 bytes. *)
Definition huge_zip : list Z :=
  [
    80; 75; 3; 4; 45; 0; 0; 0; 0; 0; 0; 0; 33; 0; 0; 0; 0; 0; 255; 255; 255; 255; 255; 255;
    255; 255; 1; 0; 20; 0; 120; 1; 0; 16; 0; 255; 255; 255; 255; 255; 255; 255; 255; 255;
    255; 255; 255; 255; 255; 255; 255; 80; 75; 1; 2; 45; 0; 45; 0; 0; 0; 0; 0; 0; 0; 33; 0;
    0; 0; 0; 0; 255; 255; 255; 255; 255; 255; 255; 255; 1; 0; 20; 0; 0; 0; 0; 0; 0; 0; 0; 0;
    0; 0; 0; 0; 0; 0; 120; 1; 0; 16; 0; 255; 255; 255; 255; 255; 255; 255; 255; 255; 255;
    255; 255; 255; 255; 255; 255; 80; 75; 5; 6; 0; 0; 0; 0; 1; 0; 1; 0; 67; 0; 0; 0; 51; 0;
    0; 0; 0; 0
  ].

Definition huge_x : ziprand_archive_t * ziprand_file_t := fopened huge_zip 0.

(** One stored entry "a" with content "hi" whose local file header carries a
    4-byte extra field that its central directory record does not have. *)
Definition skewed_zip : list Z :=
  [
    80; 75; 3; 4; 20; 0; 0; 0; 0; 0; 0; 0; 33; 0; 172; 42; 147; 216; 2; 0; 0; 0; 2; 0; 0; 0;
    1; 0; 4; 0; 97; 254; 202; 0; 0; 104; 105; 80; 75; 1; 2; 20; 0; 20; 0; 0; 0; 0; 0; 0; 0;
    33; 0; 172; 42; 147; 216; 2; 0; 0; 0; 2; 0; 0; 0; 1; 0; 0; 0; 0; 0; 0; 0; 0; 0; 0; 0; 0;
    0; 0; 0; 0; 0; 97; 80; 75; 5; 6; 0; 0; 0; 0; 1; 0; 1; 0; 47; 0; 0; 0; 37; 0; 0; 0; 0; 0
  ].

(** The archive that Python's zipfile module writes for 65536 empty stored
    members named "00000" to "65535" (dated 1980-01-01), 5636194 bytes: the
    local file headers (35 bytes each), the central directory (51 bytes per
    record, at offset 2293760), the ZIP64 end of central directory record
    announcing 65536 entries, its locator, and the end of central directory
    record, whose two 16-bit counts are 0xFFFF while its 32-bit directory
    size and offset hold the actual values. *)
Definition le_byte (v j : Z) : Z := Z.land (Z.shiftr v (8 * j)) 255.
Definition decimal_digit (k j : Z) : Z := 48 + (k / 10 ^ (4 - j)) mod 10.


Definition many_local_header (k j : Z) : Z :=
  if j <? 30 then
    bytes [80; 75; 3; 4; 20; 0; 0; 0; 0; 0; 0; 0; 33; 0; 0; 0; 0; 0; 0; 0; 0; 0; 0; 0; 0; 0;
           5; 0; 0; 0] j
  else decimal_digit k (j - 30).

Definition many_cd_record (k j : Z) : Z :=
  if j <? 42 then
    bytes [80; 75; 1; 2; 20; 3; 20; 0; 0; 0; 0; 0; 0; 0; 33; 0; 0; 0; 0; 0; 0; 0; 0; 0;
           0; 0; 0; 0; 5; 0; 0; 0; 0; 0; 0; 0; 0; 0; 0; 0; 128; 1] j
  else if j <? 46 then le_byte (35 * k) (j - 42)
  else decimal_digit k (j - 46).




(** A family of archives with one stored member "f" (8103 bytes 'A'): local
    file header and data, the central directory record at offset 8134, the
    end of central directory record at offset 8181, and an archive comment
    of [comment_len] bytes 'c'. *)
Definition commented_mem (comment_len : Z) (i : Z) : Z :=
  if i <? 31 then
    bytes [80; 75; 3; 4; 20; 0; 0; 0; 0; 0; 0; 0; 33; 0; 200; 196; 133; 230; 167; 31; 0; 0;
           167; 31; 0; 0; 1; 0; 0; 0; 102] i
  else if i <? 8134 then 65
  else if i <? 8181 then
    bytes [80; 75; 1; 2; 20; 0; 20; 0; 0; 0; 0; 0; 0; 0; 33; 0; 200; 196; 133; 230; 167; 31;
           0; 0; 167; 31; 0; 0; 1; 0; 0; 0; 0; 0; 0; 0; 0; 0; 0; 0; 0; 0; 0; 0; 0; 0; 102]
      (i - 8134)
  else if i <? 8201 then
    bytes [80; 75; 5; 6; 0; 0; 0; 0; 1; 0; 1; 0; 47; 0; 0; 0; 198; 31; 0; 0] (i - 8181)
  else if i <? 8203 then le_byte comment_len (i - 8201)
  else 99.

Definition commented_size (comment_len : Z) : Z := 8203 + comment_len.

Definition commented_archive (comment_len : Z) : ziprand_archive_t :=
  fresh_archive 0%N (memory_read (commented_mem comment_len) (commented_size comment_len))
    true (commented_size comment_len).

(** The sample archive with the signature of its second central directory
    record (at offset 426) damaged. *)
Definition broken_zip : list Z := <[426%nat := 0]> sample_zip.

(** The archive with the stored "a.txt" and the deflated "c.z" (the same
    directory, 200 bytes) in which the signature of the local file header
    of "a.txt", at offset 0, is damaged. *)
Definition damaged_mixed_zip : list Z := <[0%nat := 0]> mixed_zip.
Definition damaged_mixed_archive : ziprand_archive_t := (opened damaged_mixed_zip).2.

(** ** Notions used in the statements *)


(** The cursor of a view lies within its entry. *)
Definition view_inv (a : ziprand_archive_t) (f : ziprand_file_t) : Prop :=
  exists e : ziprand_entry_t,
    entries a !! entry f = Some e /\ 0 <= position f <= uncompressed_size e.

(** The read callback never returns more bytes than requested. *)
Definition never_over_delivers (rd : ziprand_read_fn) : Prop :=
  forall off size : Z, 0 <= size -> ret (rd off size) <= size.

(** [d] is the data offset that the local file header of [e] gives: the 30
    bytes at [offset e] are delivered, start with the local header signature,
    and [d] is the header offset plus 30 plus the two lengths found in that
    header, in 64-bit unsigned arithmetic. *)
Definition resolved_from_local_header (a : ziprand_archive_t) (e : ziprand_entry_t) (d : Z)
  : Prop :=
  exists (hdr : buffer) (filename_len extra_len : Z),
    read_into a (offset e) (uninit 30) 30 = (30, hdr) /\
    read_u32_le hdr 0 = Some LOCAL_HEADER_SIGNATURE /\
    read_u16_le hdr 26 = Some filename_len /\
    read_u16_le hdr 28 = Some extra_len /\
    d = u64 (offset e + 30 + filename_len + extra_len).

(** The data offset of every entry is either still unresolved (0) or the one
    its local file header gives. *)
Definition data_offsets_inv (a : ziprand_archive_t) : Prop :=
  forall (i : nat) (e : ziprand_entry_t),
    entries a !! i = Some e ->
    data_offset e = 0 \/ resolved_from_local_header a e (data_offset e).

(** [cd_parse a h off es h' off']: starting on heap [h] at offset [off],
    [read_cd_entry] succeeds once for each entry of [es], in this order,
    and leaves the heap [h'] and the offset [off']. *)
Inductive cd_parse (a : ziprand_archive_t)
  : heap -> Z -> list ziprand_entry_t -> heap -> Z -> Prop :=
| cd_parse_nil (h : heap) (off : Z) : cd_parse a h off [] h off
| cd_parse_cons (h : heap) (off : Z) (e : ziprand_entry_t) (h1 : heap) (off1 : Z)
    (es : list ziprand_entry_t) (h2 : heap) (off2 : Z) :
    read_cd_entry a h off = Returns (h1, OK (e, off1)) ->
    cd_parse a h1 off1 es h2 off2 ->
    cd_parse a h off (e :: es) h2 off2.

(** No block is live under a number that is still to be handed out. *)
Definition heap_wf (h : heap) : Prop :=
  forall p : N, (next h <= p)%N -> blocks h !! p = None.

(** The block table after the names of [es] were freed. *)
Definition delete_names (es : list ziprand_entry_t) (m : gmap N Z) : gmap N Z :=
  foldl (fun m e => delete (name_ptr e) m) m es.

(** ** Values in a memory region *)

(** The value of four bytes [b0 b1 b2 b3] in memory order. *)
Definition le32 (b0 b1 b2 b3 : Z) : Z := b0 + 256 * b1 + 65536 * b2 + 16777216 * b3.

(** The 32-bit and 16-bit little-endian values at an address of a memory
    region. *)
Definition mem_u32 (mem : Z -> Z) (x : Z) : Z :=
  le32 (u8 (mem x)) (u8 (mem (x + 1))) (u8 (mem (x + 2))) (u8 (mem (x + 3))).

Definition mem_u16 (mem : Z -> Z) (x : Z) : Z := u8 (mem x) + 256 * u8 (mem (x + 1)).

(** The chunk that an iteration reads. *)
Definition chunk_size_at (file_size max_search search_pos : Z) : Z :=
  Z.min (search_pos - (file_size - max_search)) 8192.

(** Whether the four bytes at an address are not the signature of the end
    of central directory record. *)
Definition no_sig_at (mem : Z -> Z) (x : Z) : bool :=
  negb (mem_u32 mem x =? EOCD_SIGNATURE).

(** The 64-bit little-endian value at an address of a memory region. *)
Definition mem_u64 (mem : Z -> Z) (x : Z) : Z :=
  mem_u32 mem x + 4294967296 * mem_u32 mem (x + 4).

(** ** Well-formed central directories *)





(** A family of archives with [n] empty stored members named by their
    number in five digits (as in the archive of 65536 members above): the
    local file headers, the central directory at offset [35 * n], and
    either the end of central directory record alone, holding [n] and the
    directory offset, or the ZIP64 end of central directory record with its
    locator and an end of central directory record whose counts, size and
    offset are all escaped. *)
Definition counted_trailer (n : Z) (zip64 : bool) (j : Z) : Z :=
  if zip64 then
    if j <? 24 then
      bytes [80; 75; 6; 6; 44; 0; 0; 0; 0; 0; 0; 0; 45; 0; 45; 0; 0; 0; 0; 0; 0; 0; 0; 0] j
    else if j <? 32 then le_byte n (j - 24)
    else if j <? 40 then le_byte n (j - 32)
    else if j <? 48 then le_byte (51 * n) (j - 40)
    else if j <? 56 then le_byte (35 * n) (j - 48)
    else if j <? 64 then bytes [80; 75; 6; 7; 0; 0; 0; 0] (j - 56)
    else if j <? 72 then le_byte (86 * n) (j - 64)
    else if j <? 76 then bytes [1; 0; 0; 0] (j - 72)
    else if j <? 84 then bytes [80; 75; 5; 6; 0; 0; 0; 0] (j - 76)
    else if j <? 96 then 255
    else 0
  else
    if j <? 8 then bytes [80; 75; 5; 6; 0; 0; 0; 0] j
    else if j <? 10 then le_byte n (j - 8)
    else if j <? 12 then le_byte n (j - 10)
    else if j <? 16 then le_byte (51 * n) (j - 12)
    else if j <? 20 then le_byte (35 * n) (j - 16)
    else 0.

Definition counted_mem (n : Z) (zip64 : bool) (i : Z) : Z :=
  if i <? 35 * n then
    let '(k, j) := Z.div_eucl i 35 in many_local_header k j
  else if i <? 86 * n then
    let '(k, j) := Z.div_eucl (i - 35 * n) 51 in many_cd_record k j
  else counted_trailer n zip64 (i - 86 * n).

Definition counted_size (n : Z) (zip64 : bool) : Z :=
  86 * n + (if zip64 then 98 else 22).

(** * Properties *)

(** ** Fixed-width arithmetic *)

Lemma u64_range (x : Z) : 0 <= u64 x < two64.
Proof. unfold u64, two64. apply Z.mod_pos_bound. lia. Qed.

Lemma u64_small (x : Z) : 0 <= x < two64 -> u64 x = x.
Proof. intros H. unfold u64. apply Z.mod_small. exact H. Qed.

Lemma i64_small (x : Z) : - two63 <= x < two63 -> i64 x = x.
Proof.
  intros H. unfold i64. rewrite Z.mod_small; unfold two63, two64 in *; lia.
Qed.

Lemma i64_range (x : Z) : - two63 <= i64 x < two63.
Proof.
  unfold i64. pose proof (Z.mod_pos_bound (x + two63) two64).
  unfold two63, two64 in *. lia.
Qed.

(** [(uint64_t)(-offset)] for a negative [int64_t] is the magnitude of the
    offset, also at [INT64_MIN]. *)
Lemma u64_neg64 (x : Z) : INT64_MIN <= x < 0 -> u64 (neg64 x) = - x.
Proof.
  unfold INT64_MIN, neg64. intros H.
  destruct (Z.eq_dec x (- two63)) as [-> | Hne].
  - reflexivity.
  - rewrite i64_small by (unfold two63 in *; lia).
    apply u64_small. unfold two63, two64 in *. lia.
Qed.

(** ** File views: reading *)

Ltac view_step :=
  repeat match goal with
  | H : ?l !! ?i = Some _ |- context [?l !! ?i] => rewrite H
  | |- context [negb true] => simpl negb
  | |- context [defined (Some _)] => simpl defined
  end; cbn [mbind run_bind fmap run_fmap mret run_ret fst snd].



(** C4: [ziprand_fread] is [ziprand_fread_at] at the current position of the
    view, after which the position has advanced by the returned count when
    that is positive (in 64-bit unsigned arithmetic, the plain sum whenever
    it fits) and is unchanged when it is zero or negative; and a seek to the
    start followed by a read of [n] bytes gives what [ziprand_fread_at] gives
    at offset 0. *)
Theorem fread_is_fread_at_then_advance (a : ziprand_archive_t) (f : ziprand_file_t)
    (buffer : bool) (n : Z) :
  ziprand_fread a (Some f) buffer n
  = ('(r, _) ← ziprand_fread_at a (Some f) (position f) buffer n;
     Returns (r, Some (if 0 <? ret r then set_position f (u64 (position f + ret r))
                       else f))) /\
  (forall r : read_result,
     0 <= position f -> position f + ret r < two64 -> 0 < ret r ->
     position (set_position f (u64 (position f + ret r))) = position f + ret r) /\
  (forall e : ziprand_entry_t,
     entries a !! entry f = Some e -> 0 <= uncompressed_size e ->
     ziprand_fseek a (Some f) 0 SEEK_SET = Returns (0, Some (set_position f 0)) /\
     fst <$> ziprand_fread a (Some (set_position f 0)) buffer n
     = fst <$> ziprand_fread_at a (Some f) 0 buffer n).
Proof.
  split; [| split].
  - unfold ziprand_fread, ziprand_fread_at.
    destruct buffer; cbn [negb mbind run_bind].
    + destruct (entries a !! entry f) as [e |]; cbn [defined mbind run_bind]; [| reflexivity].
      destruct (position f >=? uncompressed_size e); cbn [mbind run_bind].
      * reflexivity.
      * rewrite Z.gtb_ltb. destruct (0 <? ret _); reflexivity.
    + reflexivity.
  - intros r H0 H1 H2. cbn [position set_position]. apply u64_small. lia.
  - intros e He Hsz. split.
    + unfold ziprand_fseek. view_step.
      unfold fseek_new_pos, SEEK_SET. cbn [Z.eqb].
      change (u64 0) with 0.
      destruct (Z.gtb_spec 0 (uncompressed_size e)); [lia | reflexivity].
    + unfold ziprand_fread, ziprand_fread_at, set_position. cbn [position entry].
      destruct buffer; cbn [negb mbind run_bind fmap run_fmap]; [| reflexivity].
      view_step.
      destruct (0 >=? uncompressed_size e); cbn [mbind run_bind fmap run_fmap fst].
      * reflexivity.
      * destruct (ret _ >? 0); reflexivity.
Qed.

Lemma fread_is_fread_at_then_advance_witness :
  exists e : ziprand_entry_t,
    entries sample_a.1 !! entry sample_a.2 = Some e /\ 0 <= uncompressed_size e /\
    ziprand_fread sample_a.1 (Some (set_position sample_a.2 0)) true 3
    = Returns (mk_read 3 [104; 101; 108], Some (set_position sample_a.2 3)) /\
    fst <$> ziprand_fread sample_a.1 (Some (set_position sample_a.2 0)) true 3
    = fst <$> ziprand_fread_at sample_a.1 (Some sample_a.2) 0 true 3.
Proof.
  eexists. split; [vm_compute; reflexivity |]. split; [vm_compute; discriminate |].
  split; [vm_compute; reflexivity |].
  refine (proj2 (proj2 (proj2 (fread_is_fread_at_then_advance
                                 sample_a.1 sample_a.2 true 3)) _ _ _)).
  - vm_compute; reflexivity.
  - vm_compute; discriminate.
Defined.

(** ** File views: seeking *)

Lemma fseek_unfold (a : ziprand_archive_t) (f : ziprand_file_t) (e : ziprand_entry_t)
    (off whence : Z) :
  entries a !! entry f = Some e ->
  ziprand_fseek a (Some f) off whence
  = match fseek_new_pos f e off whence with
    | None => Returns (-1, Some f)
    | Some new_pos =>
        if new_pos >? uncompressed_size e then Returns (-1, Some f)
        else Returns (i64 new_pos, Some (set_position f new_pos))
    end.
Proof. intros He. unfold ziprand_fseek. view_step. reflexivity. Qed.

(** A seek relative to the current position that would go below zero ends at
    position 0 and succeeds. *)
Lemma fseek_cur_clamps (a : ziprand_archive_t) (f : ziprand_file_t) (e : ziprand_entry_t)
    (off : Z) :
  entries a !! entry f = Some e ->
  0 <= uncompressed_size e -> 0 <= position f ->
  INT64_MIN <= off -> position f + off < 0 ->
  ziprand_fseek a (Some f) off SEEK_CUR = Returns (0, Some (set_position f 0)).
Proof.
  intros He Hsz Hpos Hmin Hneg.
  rewrite (fseek_unfold a f e) by exact He.
  unfold fseek_new_pos, SEEK_SET, SEEK_CUR. cbn [Z.eqb Pos.eqb].
  destruct (Z.geb_spec off 0); [lia |].
  rewrite u64_neg64 by lia.
  destruct (Z.gtb_spec (- off) (position f)); [| lia].
  destruct (Z.gtb_spec 0 (uncompressed_size e)); [lia | reflexivity].
Qed.

(** The same relative to the end: [fseek(END, -k)] with [k] above the size
    of the entry ends at position 0. *)
Lemma fseek_end_clamps (a : ziprand_archive_t) (f : ziprand_file_t) (e : ziprand_entry_t)
    (off : Z) :
  entries a !! entry f = Some e ->
  0 <= uncompressed_size e ->
  INT64_MIN <= off -> uncompressed_size e + off < 0 ->
  ziprand_fseek a (Some f) off SEEK_END = Returns (0, Some (set_position f 0)).
Proof.
  intros He Hsz Hmin Hneg.
  rewrite (fseek_unfold a f e) by exact He.
  unfold fseek_new_pos, SEEK_SET, SEEK_CUR, SEEK_END. cbn [Z.eqb Pos.eqb].
  destruct (Z.geb_spec off 0); [lia |].
  rewrite u64_neg64 by lia.
  destruct (Z.gtb_spec (- off) (uncompressed_size e)); [| lia].
  destruct (Z.gtb_spec 0 (uncompressed_size e)); [lia | reflexivity].
Qed.

(** An absolute seek to a negative offset is not clamped: the offset is
    converted to [uint64_t], and unless the entry is at least that large the
    seek is refused and the position stays where it was. *)
Lemma fseek_set_negative_refused (a : ziprand_archive_t) (f : ziprand_file_t)
    (e : ziprand_entry_t) (off : Z) :
  entries a !! entry f = Some e ->
  INT64_MIN <= off < 0 -> uncompressed_size e < two64 + off ->
  ziprand_fseek a (Some f) off SEEK_SET = Returns (-1, Some f).
Proof.
  intros He Hoff Hsz.
  rewrite (fseek_unfold a f e) by exact He.
  unfold fseek_new_pos, SEEK_SET. cbn [Z.eqb].
  assert (Hu : u64 off = two64 + off).
  { unfold u64. unfold INT64_MIN in Hoff.
    rewrite <- (Z.mod_small (two64 + off) two64) by (unfold two63, two64 in *; lia).
    rewrite Z.add_comm. rewrite Z.add_mod by (unfold two64; lia).
    rewrite Z.mod_same by (unfold two64; lia).
    rewrite Z.add_0_r. rewrite Z.mod_mod by (unfold two64; lia). reflexivity. }
  rewrite Hu.
  destruct (Z.gtb_spec (two64 + off) (uncompressed_size e)); [reflexivity | lia].
Qed.

(** C6: the absolute seek to offset -1 on the view of "a.txt" (5 bytes,
    cursor at 2) returns -1 and leaves the cursor at 2 instead of moving it
    to 0, while the same offset relative to the current position or to the
    end is clamped to 0; on an entry that declares 2^64 - 1 bytes the
    absolute seek to -1 moves the cursor to the wrapped position 2^64 - 1
    and returns -1. *)
Theorem fseek_set_negative_not_clamped :
  ziprand_fseek sample_a.1 (Some (set_position sample_a.2 2)) (-1) SEEK_SET
  = Returns (-1, Some (set_position sample_a.2 2)) /\
  ziprand_fseek sample_a.1 (Some (set_position sample_a.2 2)) (-3) SEEK_CUR
  = Returns (0, Some (set_position sample_a.2 0)) /\
  ziprand_fseek sample_a.1 (Some (set_position sample_a.2 2)) (-6) SEEK_END
  = Returns (0, Some (set_position sample_a.2 0)) /\
  ziprand_fseek huge_x.1 (Some huge_x.2) (-1) SEEK_SET
  = Returns (-1, Some (set_position huge_x.2 18446744073709551615)).
Proof. repeat split; vm_compute; reflexivity. Qed.




(** ** File views: opening *)

(** C8: [ziprand_fopen] on an entry whose compression method is not 0
    returns a null pointer, with the heap and the archive untouched, and so
    does [ziprand_fopen_by_name] when the name resolves to such an entry; a
    view is only ever returned for an entry with compression method 0. *)
Theorem fopen_refuses_compressed (a : ziprand_archive_t) (i : nat) (e : ziprand_entry_t)
    (h : heap) :
  entries a !! i = Some e ->
  (compression_method e <> 0 ->
     ziprand_fopen (Some a) (Some i) h = Returns (h, Some a, None)) /\
  (forall (nm : list Z),
     compression_method e <> 0 ->
     ziprand_find_entry (Some a) (Some nm) = Returns (Some i) ->
     ziprand_fopen_by_name (Some a) (Some nm) h = Returns (h, Some a, None)) /\
  (forall (h' : heap) (a' : option ziprand_archive_t) (f : ziprand_file_t),
     ziprand_fopen (Some a) (Some i) h = Returns (h', a', Some f) ->
     compression_method e = 0).
Proof.
  intros He.
  assert (Hrefuse : compression_method e <> 0 ->
                    ziprand_fopen (Some a) (Some i) h = Returns (h, Some a, None)).
  { intros Hm. unfold ziprand_fopen. view_step.
    destruct (Z.eqb_spec (compression_method e) 0); [contradiction | reflexivity]. }
  split; [exact Hrefuse |]. split.
  - intros nm Hm Hfind. unfold ziprand_fopen_by_name. rewrite Hfind.
    cbn [mbind run_bind]. apply Hrefuse, Hm.
  - intros h' a' f Hopen.
    destruct (Z.eq_dec (compression_method e) 0) as [Hz | Hnz]; [exact Hz |].
    rewrite (Hrefuse Hnz) in Hopen. discriminate.
Qed.

Lemma fopen_refuses_compressed_witness :
  exists e : ziprand_entry_t,
    entries mixed_archive !! 1%nat = Some e /\
    compression_method e <> 0 /\
    ziprand_find_entry (Some mixed_archive) (Some [99; 46; 122]) = Returns (Some 1%nat) /\
    ziprand_fopen (Some mixed_archive) (Some 1%nat) heap0 = Returns (heap0, Some mixed_archive, None) /\
    ziprand_fopen_by_name (Some mixed_archive) (Some [99; 46; 122]) heap0
    = Returns (heap0, Some mixed_archive, None).
Proof.
  eexists. split; [vm_compute; reflexivity |].
  split; [vm_compute; discriminate |].
  split; [vm_compute; reflexivity |].
  pose proof (fopen_refuses_compressed mixed_archive 1 _ heap0 ltac:(vm_compute; reflexivity))
    as [H1 [H2 _]].
  split.
  - apply H1. vm_compute; discriminate.
  - apply H2; [vm_compute; discriminate | vm_compute; reflexivity].
Defined.

(** C8 fails in what the failure says: on the archive with the deflated
    "c.z" and a stored "a.txt" whose local file header is damaged,
    [ziprand_fopen] returns the same null pointer, with the same heap and
    archive, for the compressed entry, for the stored entry whose header
    [get_data_offset] rejects with ZIPRAND_ERR_INVALID_ZIP, and for a null
    entry: nothing that comes back names the compression as the reason. *)
Lemma fopen_failures_not_told_apart :
  (exists e0 e1 : ziprand_entry_t,
     entries damaged_mixed_archive !! 0%nat = Some e0 /\
     entries damaged_mixed_archive !! 1%nat = Some e1 /\
     compression_method e0 = 0 /\ compression_method e1 = 8 /\
     get_data_offset damaged_mixed_archive e0 = Returns (ERR ZIPRAND_ERR_INVALID_ZIP)) /\
  ziprand_fopen (Some damaged_mixed_archive) (Some 1%nat) heap0
  = Returns (heap0, Some damaged_mixed_archive, None) /\
  ziprand_fopen (Some damaged_mixed_archive) (Some 0%nat) heap0
  = Returns (heap0, Some damaged_mixed_archive, None) /\
  ziprand_fopen (Some damaged_mixed_archive) None heap0
  = Returns (heap0, Some damaged_mixed_archive, None).
Proof.
  split.
  - eexists _, _.
    split; [vm_compute; reflexivity |]. split; [vm_compute; reflexivity |].
    split; [vm_compute; reflexivity |]. split; [vm_compute; reflexivity |].
    vm_compute; reflexivity.
  - split; [vm_compute; reflexivity |]. split; vm_compute; reflexivity.
Qed.

(** ** The cursor invariant *)

Lemma u64_le (x : Z) : 0 <= x -> u64 x <= x.
Proof. intros H. unfold u64. apply Z.mod_le; unfold two64; lia. Qed.

Lemma get_data_offset_shape (a : ziprand_archive_t) (e e' : ziprand_entry_t) :
  get_data_offset a e = Returns (OK e') ->
  exists d : Z, e' = set_data_offset e d.
Proof.
  unfold get_data_offset. destruct (read_into a (offset e) (uninit 30) 30) as [r hdr].
  destruct (negb (r =? 30)); [discriminate |].
  destruct (read_u32_le hdr 0) as [sig |]; cbn [defined mbind run_bind]; [| discriminate].
  destruct (negb (sig =? LOCAL_HEADER_SIGNATURE)); [discriminate |].
  destruct (read_u16_le hdr 26) as [fl |]; cbn [defined mbind run_bind]; [| discriminate].
  destruct (read_u16_le hdr 28) as [el |]; cbn [defined mbind run_bind]; [| discriminate].
  intros H. inversion H. eauto.
Qed.

(** [ziprand_fopen] changes nothing in the archive but, possibly, the data
    offset of the entry it is given. *)
Lemma fopen_archive (a : ziprand_archive_t) (i : nat) (h h' : heap)
    (a' : option ziprand_archive_t) (v : option ziprand_file_t) :
  ziprand_fopen (Some a) (Some i) h = Returns (h', a', v) ->
  (a' = Some a \/
   exists (e : ziprand_entry_t) (d : Z),
     entries a !! i = Some e /\ a' = Some (set_entry a i (set_data_offset e d))) /\
  (v = None \/ exists pf : N, v = Some (mk_file pf i 0)).
Proof.
  unfold ziprand_fopen, fopen_view.
  destruct (entries a !! i) as [e |] eqn:He; cbn [defined mbind run_bind]; [| discriminate].
  destruct (negb (compression_method e =? 0)).
  { intros H; inversion H; subst. split; [left; reflexivity | left; reflexivity]. }
  destruct (data_offset e =? 0).
  - destruct (get_data_offset a e) as [[e' | c] |] eqn:Hg; cbn [mbind run_bind];
      [| | discriminate].
    + destruct (get_data_offset_shape a e e' Hg) as [d ->].
      destruct (malloc sizeof_file h) as [[pf |] h1]; intros H; inversion H; subst;
        (split; [right; eauto | eauto]).
    + intros H; inversion H; subst. split; [left; reflexivity | left; reflexivity].
  - destruct (malloc sizeof_file h) as [[pf |] h1]; intros H; inversion H; subst;
      (split; [left; reflexivity | eauto]).
Qed.

Lemma view_inv_set_data_offset (a : ziprand_archive_t) (f : ziprand_file_t) (i : nat)
    (e : ziprand_entry_t) (d : Z) :
  entries a !! i = Some e ->
  view_inv a f -> view_inv (set_entry a i (set_data_offset e d)) f.
Proof.
  intros He [e0 [He0 Hpos]]. unfold view_inv, set_entry. cbn [entries].
  destruct (decide (i = entry f)) as [-> | Hne].
  - exists (set_data_offset e d). split.
    + apply list_lookup_insert_eq. eapply lookup_lt_Some. exact He.
    + rewrite He in He0. inversion He0; subst e0. exact Hpos.
  - exists e0. split; [| exact Hpos].
    rewrite list_lookup_insert_ne by exact Hne. exact He0.
Qed.

Lemma memory_read_never_over_delivers (mem : Z -> Z) (msize : Z) :
  never_over_delivers (memory_read mem msize).
Proof.
  intros off size Hsize. unfold memory_read.
  destruct (off >=? msize); cbn [ret]; [exact Hsize |].
  destruct (Z.ltb_spec size (msize - off)); lia.
Qed.

(** C10: for a source that never returns more than it was asked for, the
    cursor of a view stays within its entry: it is 0 when [ziprand_fopen]
    creates the view, [ziprand_fread] moves it forward by at most what is
    left of the entry, [ziprand_fseek] only commits positions up to the size
    of the entry, and [ziprand_fread_at], [ziprand_ftell] and
    [ziprand_fsize] hand the view back unchanged.  A later [ziprand_fopen]
    on the same archive does not affect it either. *)
Theorem position_within_entry (a : ziprand_archive_t) :
  never_over_delivers (io_read a) ->
  (forall (i : nat) (e : ziprand_entry_t) (h h' : heap) (a' : ziprand_archive_t)
          (f : ziprand_file_t),
     entries a !! i = Some e -> 0 <= uncompressed_size e ->
     ziprand_fopen (Some a) (Some i) h = Returns (h', Some a', Some f) ->
     position f = 0 /\ view_inv a' f) /\
  (forall (f : ziprand_file_t) (buffer : bool) (n : Z) (r : read_result)
          (f' : option ziprand_file_t),
     view_inv a f -> 0 <= n ->
     ziprand_fread a (Some f) buffer n = Returns (r, f') ->
     exists f1 : ziprand_file_t,
       f' = Some f1 /\ view_inv a f1 /\
       forall e : ziprand_entry_t,
         entries a !! entry f = Some e ->
         position f1 <= position f + Z.min n (uncompressed_size e - position f)) /\
  (forall (f : ziprand_file_t) (off whence r : Z) (f' : option ziprand_file_t),
     view_inv a f ->
     ziprand_fseek a (Some f) off whence = Returns (r, f') ->
     exists f1 : ziprand_file_t, f' = Some f1 /\ view_inv a f1) /\
  (forall (f : ziprand_file_t) (off : Z) (buffer : bool) (n : Z) (r : read_result)
          (f' : option ziprand_file_t),
     ziprand_fread_at a (Some f) off buffer n = Returns (r, f') -> f' = Some f) /\
  (forall f : ziprand_file_t, (ziprand_ftell (Some f)).2 = Some f) /\
  (forall (f : ziprand_file_t) (r : Z) (f' : option ziprand_file_t),
     ziprand_fsize a (Some f) = Returns (r, f') -> f' = Some f) /\
  (forall (j : nat) (h h' : heap) (a' : ziprand_archive_t) (v : option ziprand_file_t)
          (f : ziprand_file_t),
     view_inv a f ->
     ziprand_fopen (Some a) (Some j) h = Returns (h', Some a', v) ->
     view_inv a' f).
Proof.
  intros Hsrc.
  assert (Hkeep : forall (j : nat) (h h' : heap) (a' : ziprand_archive_t)
                         (v : option ziprand_file_t) (f : ziprand_file_t),
             view_inv a f ->
             ziprand_fopen (Some a) (Some j) h = Returns (h', Some a', v) ->
             view_inv a' f).
  { intros j h h' a' v f Hinv Hopen.
    destruct (fopen_archive _ _ _ _ _ _ Hopen) as [[Ha | (e & d & He & Ha)] _];
      inversion Ha; subst a'; [exact Hinv |].
    apply view_inv_set_data_offset; assumption. }
  split; [| split; [| split; [| split; [| split; [| split]]]]].
  - intros i e h h' a' f He Hsz Hopen.
    destruct (fopen_archive _ _ _ _ _ _ Hopen) as [_ [Hv | [pf Hv]]]; inversion Hv; subst f.
    split; [reflexivity |].
    assert (Hbase : view_inv a (mk_file pf i 0)) by (exists e; cbn; split; [assumption | lia]).
    eapply Hkeep; eassumption.
  - intros f buffer n r f' [e [He Hpos]] Hn.
    unfold ziprand_fread, ziprand_fread_at.
    destruct buffer; cbn [negb mbind run_bind].
    + view_step.
      destruct (Z.geb_spec (position f) (uncompressed_size e)); cbn [mbind run_bind].
      * cbn [ret]. intros Heq; inversion Heq; subst. exists f.
        split; [reflexivity |]. split; [exists e; auto |].
        intros e1 He1. rewrite ?He in He1. inversion He1; subst e1. lia.
      * set (to_read := if n <? uncompressed_size e - position f then n
                        else uncompressed_size e - position f).
        assert (Hto : 0 <= to_read /\
                      to_read = Z.min n (uncompressed_size e - position f)).
        { subst to_read. destruct (Z.ltb_spec n (uncompressed_size e - position f)); lia. }
        pose proof (Hsrc (u64 (data_offset e + position f)) to_read (proj1 Hto)) as Hret.
        destruct (Z.gtb_spec (ret (io_read a (u64 (data_offset e + position f)) to_read)) 0);
          intros Heq; inversion Heq; subst r f'.
        -- eexists. split; [reflexivity |].
           pose proof (u64_le (position f + ret (io_read a (u64 (data_offset e + position f))
                                                   to_read)) ltac:(lia)).
           pose proof (u64_range (position f + ret (io_read a (u64 (data_offset e + position f))
                                                      to_read))).
           split.
           ++ exists e. cbn [entry position set_position]. split; [assumption | lia].
           ++ intros e1 He1. rewrite ?He in He1. inversion He1; subst e1.
              cbn [position set_position]. lia.
        -- exists f. split; [reflexivity |]. split; [exists e; auto |].
           intros e1 He1. rewrite ?He in He1. inversion He1; subst e1. lia.
    + cbn [ret]. intros Heq; inversion Heq; subst. exists f.
      split; [reflexivity |]. split; [exists e; auto |].
      intros e1 He1. rewrite ?He in He1. inversion He1; subst e1. lia.
  - intros f off whence r f' [e [He Hpos]].
    rewrite (fseek_unfold a f e) by exact He.
    destruct (fseek_new_pos f e off whence) as [new_pos |] eqn:Hnew.
    + destruct (Z.gtb_spec new_pos (uncompressed_size e)); intros Heq; inversion Heq; subst r f'.
      * exists f. split; [reflexivity | exists e; auto].
      * eexists. split; [reflexivity |]. exists e. cbn [entry position set_position].
        split; [assumption |]. split; [| lia].
        unfold fseek_new_pos in Hnew.
        repeat match type of Hnew with
               | (if ?c then _ else _) = _ => destruct c
               end; inversion Hnew; subst new_pos;
          first [apply u64_range | lia].
    + intros Heq; inversion Heq; subst r f'. exists f. split; [reflexivity | exists e; auto].
  - intros f off buffer n r f'. unfold ziprand_fread_at.
    destruct buffer; cbn [negb]; [| intros Heq; inversion Heq; reflexivity].
    destruct (entries a !! entry f) as [e |]; cbn [defined mbind run_bind]; [| discriminate].
    destruct (off >=? uncompressed_size e); intros Heq; inversion Heq; reflexivity.
  - intros f. reflexivity.
  - intros f r f'. unfold ziprand_fsize.
    destruct (entries a !! entry f) as [e |]; cbn [defined mbind run_bind]; [| discriminate].
    intros Heq; inversion Heq; reflexivity.
  - exact Hkeep.
Qed.

Lemma sample_a_source :
  io_read sample_a.1 = memory_read (bytes sample_zip) (Z.of_nat (length sample_zip)).
Proof. vm_compute. reflexivity. Qed.

Lemma position_within_entry_witness :
  never_over_delivers (io_read sample_a.1) /\
  view_inv sample_a.1 sample_a.2 /\
  exists f1 : ziprand_file_t,
    ziprand_fread sample_a.1 (Some sample_a.2) true 3
    = Returns (mk_read 3 [104; 101; 108], Some f1) /\
    view_inv sample_a.1 f1.
Proof.
  assert (Hsrc : never_over_delivers (io_read sample_a.1)).
  { rewrite sample_a_source. apply memory_read_never_over_delivers. }
  assert (Hinv : view_inv sample_a.1 sample_a.2).
  { eexists. split; [vm_compute; reflexivity | vm_compute; split; discriminate]. }
  split; [exact Hsrc |]. split; [exact Hinv |].
  destruct (proj1 (proj2 (position_within_entry sample_a.1 Hsrc))
              sample_a.2 true 3 (mk_read 3 [104; 101; 108])
              (Some (set_position sample_a.2 3)) Hinv ltac:(lia)
              ltac:(vm_compute; reflexivity)) as (f1 & Hf1 & Hinv1 & _).
  exists f1. split; [| exact Hinv1].
  rewrite <- Hf1. vm_compute. reflexivity.
Defined.

(** ** Directory entries *)

(** Case analysis on a run that is known to return: the scrutinees of the
    hypothesis are taken apart one after the other. *)
Ltac run_inv H :=
  repeat (cbn [mbind run_bind defined mret run_ret] in H;
          lazymatch type of H with
          | Undefined = _ => fail
          | context [mbind _ (defined ?o)] => destruct o eqn:?
          | context [mbind _ ?m] => destruct m eqn:?
          | context [match ?x with _ => _ end] =>
              lazymatch x with
              | context [match _ with _ => _ end] => fail
              | context [if _ then _ else _] => fail
              | _ => destruct x eqn:?
              end
          | context [if ?c then _ else _] => destruct c eqn:?
          end).

Lemma read_cd_entry_data_offset (a : ziprand_archive_t) (h h' : heap) (off off' : Z)
    (e : ziprand_entry_t) :
  read_cd_entry a h off = Returns (h', OK (e, off')) -> data_offset e = 0.
Proof.
  unfold read_cd_entry. intros H.
  run_inv H.
  all: try discriminate H.
  all: inversion H; reflexivity.
Qed.

(** ** The data offset of an entry *)

Lemma get_data_offset_ok (a : ziprand_archive_t) (e e' : ziprand_entry_t) :
  get_data_offset a e = Returns (OK e') <->
  exists d : Z, resolved_from_local_header a e d /\ e' = set_data_offset e d.
Proof.
  unfold get_data_offset, resolved_from_local_header. split.
  - intros H. run_inv H; try discriminate H.
    inversion H; subst e'.
    match goal with Hr : negb (?r =? 30) = false |- _ =>
      apply negb_false_iff, Z.eqb_eq in Hr; subst r end.
    match goal with Hs : negb (?s =? LOCAL_HEADER_SIGNATURE) = false |- _ =>
      apply negb_false_iff, Z.eqb_eq in Hs; subst s end.
    eexists. split; [| reflexivity]. eauto 10.
  - intros (d & (hdr & fl & el & Hr & Hsig & Hfl & Hel & ->) & ->).
    rewrite Hr. cbn [negb Z.eqb Pos.eqb]. rewrite Hsig. cbn [defined mbind run_bind].
    rewrite Z.eqb_refl. cbn [negb]. rewrite Hfl, Hel. reflexivity.
Qed.

Lemma get_data_offset_fails (a : ziprand_archive_t) (e : ziprand_entry_t) (r sig : Z)
    (hdr : buffer) :
  read_into a (offset e) (uninit 30) 30 = (r, hdr) ->
  r <> 30 \/ (read_u32_le hdr 0 = Some sig /\ sig <> LOCAL_HEADER_SIGNATURE) ->
  exists c : ziprand_error_t, get_data_offset a e = Returns (ERR c).
Proof.
  intros Hr Hbad. unfold get_data_offset. rewrite Hr.
  destruct (Z.eqb_spec r 30) as [-> | Hne]; cbn [negb].
  - destruct Hbad as [Hbad | [Hsig Hne]]; [contradiction |].
    rewrite Hsig. cbn [defined mbind run_bind].
    destruct (Z.eqb_spec sig LOCAL_HEADER_SIGNATURE); [contradiction |].
    cbn [negb]. eauto.
  - eauto.
Qed.

(** ** The loop of [ziprand_open] *)

Lemma cd_parse_snoc (a : ziprand_archive_t) (h : heap) (off : Z) (es : list ziprand_entry_t)
    (h1 : heap) (off1 : Z) (e : ziprand_entry_t) (h2 : heap) (off2 : Z) :
  cd_parse a h off es h1 off1 ->
  read_cd_entry a h1 off1 = Returns (h2, OK (e, off2)) ->
  cd_parse a h off (es ++ [e]) h2 off2.
Proof.
  induction 1 as [h off | h off e0 h1 off1 es h3 off3 Hread Hrest IH]; intros Hlast.
  - cbn. econstructor; [exact Hlast | constructor].
  - cbn. econstructor; [exact Hread | apply IH, Hlast].
Qed.

(** The loop from a state reached after parsing [parsed]: a generalisation
    of the two results below that the induction needs. *)
Lemma open_entries_from (a : ziprand_archive_t) (h0 : heap) (off0 : Z) (n : nat) :
  forall (h : heap) (off : Z) (parsed : list ziprand_entry_t)
         (h' : heap) (r : status (list ziprand_entry_t)),
    cd_parse a h0 off0 (reverse parsed) h off ->
    open_entries a h off parsed n = Returns (h', r) ->
    match r with
    | OK es =>
        exists off' : Z,
          length es = (length parsed + n)%nat /\ cd_parse a h0 off0 es h' off'
    | ERR c =>
        exists (es : list ziprand_entry_t) (h1 : heap) (off1 : Z) (h2 : heap),
          (length parsed <= length es < length parsed + n)%nat /\
          cd_parse a h0 off0 es h1 off1 /\
          read_cd_entry a h1 off1 = Returns (h2, ERR c) /\
          h' = free_names es h2
    end.
Proof.
  induction n as [| n IH]; intros h off parsed h' r Hparsed Hloop.
  - cbn in Hloop. inversion Hloop; subst. exists off.
    rewrite length_reverse. split; [lia | exact Hparsed].
  - cbn [open_entries] in Hloop.
    destruct (read_cd_entry a h off) as [[h1 [[e off1] | c]] |] eqn:Hread;
      cbn [mbind run_bind] in Hloop; [| | discriminate].
    + specialize (IH h1 off1 (e :: parsed) h' r).
      rewrite reverse_cons in IH.
      specialize (IH (cd_parse_snoc _ _ _ _ _ _ _ _ _ Hparsed Hread) Hloop).
      destruct r as [es | c].
      * destruct IH as (off' & Hlen & Hes). exists off'. cbn in Hlen. split; [lia | exact Hes].
      * destruct IH as (es & h2 & off2 & h3 & Hlen & Hes & Hfail & ->).
        exists es, h2, off2, h3. cbn in Hlen. repeat split; try lia; assumption.
    + inversion Hloop; subst. exists (reverse parsed), h, off, h1.
      rewrite length_reverse. repeat split; try lia; assumption.
Qed.

(** When the loop succeeds, every one of the [n] entries was parsed. *)
Lemma open_entries_ok (a : ziprand_archive_t) (h : heap) (off : Z) (n : nat)
    (h' : heap) (es : list ziprand_entry_t) :
  open_entries a h off [] n = Returns (h', OK es) ->
  exists off' : Z, length es = n /\ cd_parse a h off es h' off'.
Proof.
  intros Hloop.
  apply (open_entries_from a h off n h off [] h' (OK es) (cd_parse_nil a h off)) in Hloop.
  exact Hloop.
Qed.

(** When it fails, fewer than [n] entries were parsed, the next one failed,
    and the names of the parsed ones were freed. *)
Lemma open_entries_err (a : ziprand_archive_t) (h : heap) (off : Z) (n : nat)
    (h' : heap) (c : ziprand_error_t) :
  open_entries a h off [] n = Returns (h', ERR c) ->
  exists (es : list ziprand_entry_t) (h1 : heap) (off1 : Z) (h2 : heap),
    (length es < n)%nat /\
    cd_parse a h off es h1 off1 /\
    read_cd_entry a h1 off1 = Returns (h2, ERR c) /\
    h' = free_names es h2.
Proof.
  intros Hloop.
  apply (open_entries_from a h off n h off [] h' (ERR c) (cd_parse_nil a h off)) in Hloop.
  destruct Hloop as (es & h1 & off1 & h2 & Hlen & Hes & Hfail & ->).
  exists es, h1, off1, h2. cbn in Hlen. repeat split; try lia; assumption.
Qed.

(** Conversely, a failing entry after [es] makes the loop fail, whatever the
    announced count above [length es]. *)
Lemma open_entries_fails (a : ziprand_archive_t) (h : heap) (off : Z)
    (es : list ziprand_entry_t) (h1 : heap) (off1 : Z) (h2 : heap) (c : ziprand_error_t) :
  cd_parse a h off es h1 off1 ->
  read_cd_entry a h1 off1 = Returns (h2, ERR c) ->
  forall (parsed : list ziprand_entry_t) (n : nat),
    (length es < n)%nat ->
    open_entries a h off parsed n = Returns (free_names (reverse parsed ++ es) h2, ERR c).
Proof.
  induction 1 as [h off | h off e h1 off1 es h3 off3 Hread Hrest IH];
    intros Hfail parsed n Hlen.
  - destruct n as [| n]; [cbn in Hlen; lia |].
    cbn [open_entries]. rewrite Hfail. cbn [mbind run_bind].
    rewrite app_nil_r. reflexivity.
  - destruct n as [| n]; [cbn in Hlen; lia |].
    cbn [open_entries]. rewrite Hread. cbn [mbind run_bind].
    rewrite (IH Hfail (e :: parsed) n) by (cbn in Hlen; lia).
    rewrite reverse_cons, <- app_assoc. reflexivity.
Qed.

(** ** The heap *)

Lemma malloc_some (size : Z) (h h1 : heap) (p : N) :
  malloc size h = (Some p, h1) ->
  p = next h /\ blocks h1 = <[p := size]> (blocks h) /\ next h1 = N.succ (next h).
Proof.
  unfold malloc. destruct (can_alloc h (next h) size); intros H; inversion H; subst.
  auto.
Qed.

Lemma malloc_none (size : Z) (h h1 : heap) :
  malloc size h = (None, h1) ->
  blocks h1 = blocks h /\ next h1 = N.succ (next h).
Proof.
  unfold malloc. destruct (can_alloc h (next h) size); intros H; inversion H; subst.
  auto.
Qed.

Lemma heap_wf_heap0 : heap_wf heap0.
Proof. intros p _. apply lookup_empty. Qed.

(** Freeing the block that was allocated last, or any block allocated since
    [h], gives back the blocks of [h]. *)
Lemma delete_fresh (h : heap) (p : N) (size : Z) (m : gmap N Z) :
  heap_wf h -> (next h <= p)%N -> m = blocks h ->
  delete p (<[p := size]> m) = blocks h.
Proof. intros Hwf Hp ->. apply delete_insert_id, Hwf, Hp. Qed.

Lemma blocks_free_names (es : list ziprand_entry_t) (h : heap) :
  blocks (free_names es h) = delete_names es (blocks h) /\
  next (free_names es h) = next h.
Proof.
  revert h. induction es as [| e es IH]; intros h; [split; reflexivity |].
  change (free_names (e :: es) h) with (free_names es (free (name_ptr e) h)).
  change (delete_names (e :: es) (blocks h))
    with (delete_names es (delete (name_ptr e) (blocks h))).
  destruct (IH (free (name_ptr e) h)) as [Hb Hn]. rewrite Hb, Hn. split; reflexivity.
Qed.

Lemma delete_names_delete (es : list ziprand_entry_t) (p : N) (m : gmap N Z) :
  delete_names es (delete p m) = delete p (delete_names es m).
Proof.
  revert m. induction es as [| e es IH]; intros m; [reflexivity |].
  change (delete_names (e :: es) (delete p m))
    with (delete_names es (delete (name_ptr e) (delete p m))).
  change (delete_names (e :: es) m) with (delete_names es (delete (name_ptr e) m)).
  rewrite <- IH. f_equal. apply delete_delete.
Qed.

Lemma delete_names_app (es1 es2 : list ziprand_entry_t) (m : gmap N Z) :
  delete_names (es1 ++ es2) m = delete_names es2 (delete_names es1 m).
Proof. unfold delete_names. apply foldl_app. Qed.


Ltac heap_facts :=
  repeat match goal with
  | Hm : malloc _ _ = (Some _, _) |- _ =>
      apply malloc_some in Hm; destruct Hm as (? & ? & ?)
  | Hm : malloc _ _ = (None, _) |- _ =>
      apply malloc_none in Hm; destruct Hm as (? & ?)
  end; subst.

Ltac heap_rewrite :=
  cbn [blocks next free name_ptr] in *;
  repeat match goal with
  | Hb : blocks ?h = _ |- context [blocks ?h] => rewrite Hb
  | Hn : next ?h = _ |- context [next ?h] => rewrite Hn
  end.

Ltac heap_lookup Hwf :=
  repeat first [ rewrite lookup_delete_ne by lia | rewrite lookup_insert_ne by lia ];
  apply Hwf; lia.

Ltac heap_solve Hwf :=
  heap_rewrite;
  lazymatch goal with
  | |- heap_wf _ =>
      let k := fresh "k" in let Hk := fresh "Hk" in
      intros k Hk; heap_rewrite; heap_lookup Hwf
  | |- @eq (gmap N Z) _ _ =>
      repeat (rewrite delete_insert_id by heap_lookup Hwf); reflexivity
  | |- exists _ : Z, @eq (gmap N Z) _ _ =>
      eexists; repeat (rewrite delete_insert_id by heap_lookup Hwf); reflexivity
  | |- _ => lia
  end.

(** What [read_cd_entry] does to the heap: on failure every block it
    allocated is freed again; on success exactly the block that holds the
    name of the entry is new. *)
Lemma read_cd_entry_heap (a : ziprand_archive_t) (h h' : heap) (off : Z)
    (r : status (ziprand_entry_t * Z)) :
  read_cd_entry a h off = Returns (h', r) ->
  heap_wf h ->
  heap_wf h' /\ (next h <= next h')%N /\
  match r with
  | ERR _ => blocks h' = blocks h
  | OK (e, _) =>
      (next h <= name_ptr e < next h')%N /\
      exists size : Z, blocks h' = <[name_ptr e := size]> (blocks h)
  end.
Proof.
  unfold read_cd_entry. intros H Hwf.
  run_inv H; try discriminate H.
  all: inversion H; subst h' r; clear H.
  all: heap_facts.
  all: repeat split; heap_solve Hwf.
Qed.

(** After a run of successful entries the only new blocks are their names. *)
Lemma cd_parse_heap (a : ziprand_archive_t) (h : heap) (off : Z)
    (es : list ziprand_entry_t) (h' : heap) (off' : Z) :
  cd_parse a h off es h' off' ->
  heap_wf h ->
  heap_wf h' /\ (next h <= next h')%N /\ delete_names es (blocks h') = blocks h.
Proof.
  induction 1 as [h off | h off e h1 off1 es h2 off2 Hread Hrest IH]; intros Hwf.
  - repeat split; [exact Hwf | lia].
  - destruct (read_cd_entry_heap _ _ _ _ _ Hread Hwf) as (Hwf1 & Hn1 & Hp & size & Hb1).
    destruct (IH Hwf1) as (Hwf2 & Hn2 & Hb2).
    repeat split; [exact Hwf2 | lia |].
    change (delete_names (e :: es) (blocks h2))
      with (delete_names es (delete (name_ptr e) (blocks h2))).
    rewrite delete_names_delete, Hb2, Hb1.
    apply delete_insert_id, Hwf. lia.
Qed.

Lemma cd_parse_length_data_offset (a : ziprand_archive_t) (h : heap) (off : Z)
    (es : list ziprand_entry_t) (h' : heap) (off' : Z) :
  cd_parse a h off es h' off' ->
  Forall (fun e => data_offset e = 0) es.
Proof.
  induction 1 as [h off | h off e h1 off1 es h2 off2 Hread Hrest IH]; constructor.
  - eapply read_cd_entry_data_offset, Hread.
  - exact IH.
Qed.

(** ** ziprand_open *)

(** The state in which [ziprand_open] enters its loop: the source [io] has
    both callbacks and a non-negative size, the archive block [pa] and the
    entry table [pe] were allocated, and the directory was located at [cd]
    with [n] entries announced. *)
Lemma ziprand_open_unfold (rd : ziprand_read_fn) (sz : Z) (cl : bool) (h h1 h2 : heap)
    (pa pe : N) (cd n : Z) :
  malloc (1 * sizeof_archive) h = (Some pa, h1) ->
  0 <= sz ->
  get_cd_info (fresh_archive pa rd cl sz) = Returns (OK (cd, n)) ->
  malloc (n * sizeof_entry) h1 = (Some pe, h2) ->
  ziprand_open (Some (mk_io (Some rd) (Some sz) cl)) h
  = ('(h3, r) ← open_entries (fresh_archive pa rd cl sz) h2 cd []
                  (Z.to_nat n);
     match r with
     | ERR _ => Returns (free pa (free pe h3), None)
     | OK es => Returns (h3, Some (mk_archive pa rd cl (Some pe) es n (u64 sz)))
     end).
Proof.
  intros Hpa Hsz Hcd Hpe. unfold ziprand_open.
  rewrite Hpa. destruct (Z.ltb_spec sz 0); [lia |].
  rewrite Hcd. cbn [mbind run_bind]. rewrite Hpe. reflexivity.
Qed.

Lemma open_entries_err_heap (a : ziprand_archive_t) (h : heap) (off : Z) (n : nat)
    (h' : heap) (c : ziprand_error_t) :
  open_entries a h off [] n = Returns (h', ERR c) ->
  heap_wf h ->
  blocks h' = blocks h.
Proof.
  intros Hloop Hwf.
  destruct (open_entries_err _ _ _ _ _ _ Hloop) as (es & h1 & off1 & h2 & _ & Hes & Hfail & ->).
  destruct (cd_parse_heap _ _ _ _ _ _ Hes Hwf) as (Hwf1 & _ & Hb1).
  destruct (read_cd_entry_heap _ _ _ _ _ Hfail Hwf1) as (_ & _ & Hb2).
  rewrite (proj1 (blocks_free_names es h2)), Hb2. exact Hb1.
Qed.

(** A failed [ziprand_open] leaves no block behind. *)
Lemma ziprand_open_null_heap (io : option ziprand_io_t) (h h' : heap) :
  heap_wf h ->
  ziprand_open io h = Returns (h', None) ->
  blocks h' = blocks h.
Proof.
  intros Hwf H. unfold ziprand_open in H.
  destruct io as [[[rd |] [sz |] cl] |]; try (inversion H; reflexivity).
  destruct (malloc (1 * sizeof_archive) h) as [[pa |] h1] eqn:Hpa.
  2: { inversion H; subst. apply malloc_none in Hpa. apply Hpa. }
  destruct (sz <? 0).
  { inversion H; subst. heap_facts. heap_solve Hwf. }
  destruct (get_cd_info _) as [[[cd n] | c] |] eqn:Hcd; cbn [mbind run_bind] in H;
    [| | discriminate].
  2: { inversion H; subst. heap_facts. heap_solve Hwf. }
  destruct (malloc (n * sizeof_entry) h1) as [[pe |] h2] eqn:Hpe.
  2: { inversion H; subst. heap_facts. heap_solve Hwf. }
  destruct (open_entries _ h2 cd [] (Z.to_nat n)) as [[h3 [es | c]] |] eqn:Hloop;
    cbn [mbind run_bind] in H; [discriminate | | discriminate].
  inversion H; subst h'. clear H.
  assert (Hwf2 : heap_wf h2).
  { heap_facts. intros k Hk. heap_rewrite. heap_lookup Hwf. }
  pose proof (open_entries_err_heap _ _ _ _ _ _ Hloop Hwf2) as Hb3.
  heap_facts. cbn [blocks free]. rewrite Hb3.
  heap_solve Hwf.
Qed.

(** A successful [ziprand_open] parsed as many entries as the directory
    announces, one after the other from the start of the directory. *)
Lemma ziprand_open_some (io : option ziprand_io_t) (h h' : heap) (a : ziprand_archive_t) :
  ziprand_open io h = Returns (h', Some a) ->
  exists (a0 : ziprand_archive_t) (h2 : heap) (cd off' : Z),
    io_read a0 = io_read a /\
    get_cd_info a0 = Returns (OK (cd, entry_count a)) /\
    length (entries a) = Z.to_nat (entry_count a) /\
    cd_parse a0 h2 cd (entries a) h' off'.
Proof.
  intros H. unfold ziprand_open in H.
  destruct io as [[[rd |] [sz |] cl] |]; try discriminate H.
  destruct (malloc (1 * sizeof_archive) h) as [[pa |] h1] eqn:Hpa; [| discriminate H].
  destruct (sz <? 0); [discriminate H |].
  destruct (get_cd_info _) as [[[cd n] | c] |] eqn:Hcd; cbn [mbind run_bind] in H;
    try discriminate H.
  destruct (malloc (n * sizeof_entry) h1) as [[pe |] h2] eqn:Hpe; [| discriminate H].
  destruct (open_entries _ h2 cd [] (Z.to_nat n)) as [[h3 [es | c]] |] eqn:Hloop;
    cbn [mbind run_bind] in H; try discriminate H.
  inversion H; subst h' a. clear H.
  destruct (open_entries_ok _ _ _ _ _ _ Hloop) as (off' & Hlen & Hes).
  eexists _, h2, cd, off'. cbn [io_read entries entry_count].
  split; [| split; [exact Hcd | split; [exact Hlen | exact Hes]]]. reflexivity.
Qed.

(** C9: [ziprand_open] is all or nothing.  If, once the directory is located
    and the entry table allocated, some entry fails to parse after the
    entries [es] before it were parsed, then [ziprand_open] returns a null
    pointer and every block it allocated (the names of [es], the table, the
    archive) is freed again.  In general a null result leaves the heap as it
    was, and an archive that is returned holds exactly as many entries as
    the directory announces, all of them parsed. *)
Theorem open_all_or_nothing (io : option ziprand_io_t) (h : heap) :
  heap_wf h ->
  (forall (rd : ziprand_read_fn) (sz : Z) (cl : bool) (pa pe : N) (h1 h2 : heap) (cd n : Z)
          (es : list ziprand_entry_t) (hm : heap) (offm : Z) (hf : heap)
          (c : ziprand_error_t),
     io = Some (mk_io (Some rd) (Some sz) cl) ->
     malloc (1 * sizeof_archive) h = (Some pa, h1) ->
     0 <= sz ->
     get_cd_info (fresh_archive pa rd cl sz) = Returns (OK (cd, n)) ->
     malloc (n * sizeof_entry) h1 = (Some pe, h2) ->
     cd_parse (fresh_archive pa rd cl sz) h2 cd es hm offm ->
     (length es < Z.to_nat n)%nat ->
     read_cd_entry (fresh_archive pa rd cl sz) hm offm = Returns (hf, ERR c) ->
     exists h' : heap,
       ziprand_open io h = Returns (h', None) /\ blocks h' = blocks h) /\
  (forall (h' : heap) (r : option ziprand_archive_t),
     ziprand_open io h = Returns (h', r) ->
     match r with
     | None => blocks h' = blocks h
     | Some a =>
         exists (a0 : ziprand_archive_t) (h2 : heap) (cd off' : Z),
           io_read a0 = io_read a /\
           get_cd_info a0 = Returns (OK (cd, entry_count a)) /\
           length (entries a) = Z.to_nat (entry_count a) /\
           cd_parse a0 h2 cd (entries a) h' off'
     end).
Proof.
  intros Hwf. split.
  - intros rd sz cl pa pe h1 h2 cd n es hm offm hf c -> Hpa Hsz Hcd Hpe Hes Hlen Hfail.
    pose proof (ziprand_open_unfold rd sz cl h h1 h2 pa pe cd n Hpa Hsz Hcd Hpe) as Hopen.
    rewrite (open_entries_fails _ _ _ _ _ _ _ _ Hes Hfail [] (Z.to_nat n) Hlen) in Hopen.
    cbn [mbind run_bind] in Hopen.
    eexists. split; [exact Hopen |].
    eapply ziprand_open_null_heap; eassumption.
  - intros h' [a |] Hopen.
    + eapply ziprand_open_some, Hopen.
    + eapply ziprand_open_null_heap; eassumption.
Qed.

Lemma open_all_or_nothing_witness :
  heap_wf heap0 /\
  exists h' : heap,
    ziprand_open (memory_source broken_zip) heap0 = Returns (h', None) /\
    blocks h' = blocks heap0.
Proof.
  split; [exact heap_wf_heap0 |].
  refine (proj1 (open_all_or_nothing (memory_source broken_zip) heap0 heap_wf_heap0)
            _ _ _ _ _ _ _ _ _ _ _ _ _ _ _ _ _ _ _ _ _ _).
  - vm_compute; reflexivity.
  - vm_compute; reflexivity.
  - vm_compute; discriminate.
  - vm_compute; reflexivity.
  - vm_compute; reflexivity.
  - econstructor; [vm_compute; reflexivity | constructor].
  - vm_compute. lia.
  - vm_compute; reflexivity.
Defined.

(** ** Resolution of the data offset by [ziprand_fopen] *)

Lemma resolved_set_entry (a : ziprand_archive_t) (i : nat) (e0 e : ziprand_entry_t) (d : Z) :
  resolved_from_local_header (set_entry a i e0) e d <-> resolved_from_local_header a e d.
Proof. reflexivity. Qed.

Lemma data_offsets_inv_set_entry (a : ziprand_archive_t) (i : nat) (e : ziprand_entry_t)
    (d : Z) :
  entries a !! i = Some e ->
  resolved_from_local_header a e d ->
  data_offsets_inv a ->
  data_offsets_inv (set_entry a i (set_data_offset e d)).
Proof.
  intros He Hd Hinv j ej. unfold set_entry at 1. cbn [entries].
  destruct (decide (i = j)) as [-> | Hne].
  - rewrite list_lookup_insert_eq by (eapply lookup_lt_Some; exact He).
    intros Hj; inversion Hj; subst ej. right. apply resolved_set_entry. exact Hd.
  - rewrite list_lookup_insert_ne by exact Hne.
    intros Hj. destruct (Hinv j ej Hj) as [Hz | Hr]; [left; exact Hz | right].
    apply resolved_set_entry. exact Hr.
Qed.

(** After [ziprand_open] no data offset is resolved yet. *)
Lemma ziprand_open_data_offsets (io : option ziprand_io_t) (h h' : heap)
    (a : ziprand_archive_t) :
  ziprand_open io h = Returns (h', Some a) ->
  Forall (fun e => data_offset e = 0) (entries a).
Proof.
  intros H. destruct (ziprand_open_some _ _ _ _ H) as (a0 & h2 & cd & off' & _ & _ & _ & Hes).
  eapply cd_parse_length_data_offset, Hes.
Qed.

(** C5: the first [ziprand_fopen] of a stored entry (its data offset is
    still 0) reads the 30-byte local file header at the header offset of the
    entry; unless the 30 bytes arrive and start with 0x04034b50 it returns a
    null pointer and changes nothing; otherwise it stores
    [offset + 30 + filename_len + extra_len] in the entry of the archive,
    with the two lengths taken from that local header (64-bit unsigned
    arithmetic, the plain sum whenever it fits), and goes on to create the
    view.  Once the stored value is not 0, [ziprand_fopen] creates the view
    without consulting the source and leaves the archive as it is.  So in an
    archive that came from [ziprand_open] every data offset is, at any time,
    either unresolved (0) or the one given by this formula.

    In terms of what the caller holds afterwards: when [ziprand_fopen]
    returns a view, entry [i] of the archive has as its data offset the
    value the local header gives (if it was unresolved before) or the value
    it had (if not); its other fields, the other entries and the rest of
    the archive are as before; the view is on entry [i] at position 0.  And
    with a data offset other than 0 in place, every later [ziprand_fopen] of
    this entry goes straight to creating the view and hands back the same
    archive, with the same data offset. *)
Theorem fopen_resolves_data_offset (a : ziprand_archive_t) (i : nat) (e : ziprand_entry_t)
    (h : heap) :
  entries a !! i = Some e ->
  compression_method e = 0 ->
  (data_offset e = 0 ->
     (forall (r sig : Z) (hdr : buffer),
        read_into a (offset e) (uninit 30) 30 = (r, hdr) ->
        r <> 30 \/ (read_u32_le hdr 0 = Some sig /\ sig <> LOCAL_HEADER_SIGNATURE) ->
        ziprand_fopen (Some a) (Some i) h = Returns (h, Some a, None)) /\
     (forall d : Z,
        resolved_from_local_header a e d ->
        ziprand_fopen (Some a) (Some i) h
        = fopen_view (set_entry a i (set_data_offset e d)) i h) /\
     (forall (h' : heap) (a' : option ziprand_archive_t) (f : ziprand_file_t),
        ziprand_fopen (Some a) (Some i) h = Returns (h', a', Some f) ->
        exists d : Z,
          resolved_from_local_header a e d /\
          a' = Some (set_entry a i (set_data_offset e d)))) /\
  (data_offset e <> 0 ->
     ziprand_fopen (Some a) (Some i) h = fopen_view a i h) /\
  (data_offsets_inv a ->
     forall (h' : heap) (a' : ziprand_archive_t) (v : option ziprand_file_t),
       ziprand_fopen (Some a) (Some i) h = Returns (h', Some a', v) ->
       data_offsets_inv a') /\
  (forall (hdr : buffer) (filename_len extra_len : Z),
     read_u16_le hdr 26 = Some filename_len -> read_u16_le hdr 28 = Some extra_len ->
     0 <= offset e -> offset e + 30 + filename_len + extra_len < two64 ->
     u64 (offset e + 30 + filename_len + extra_len)
     = offset e + 30 + filename_len + extra_len) /\
  (forall (io : option ziprand_io_t) (h0 h1 : heap),
     ziprand_open io h0 = Returns (h1, Some a) -> data_offsets_inv a) /\
  (forall (h' : heap) (a' : option ziprand_archive_t) (f : ziprand_file_t),
     ziprand_fopen (Some a) (Some i) h = Returns (h', a', Some f) ->
     exists (a1 : ziprand_archive_t) (e1 : ziprand_entry_t),
       a' = Some a1 /\ entries a1 !! i = Some e1 /\
       (data_offset e = 0 -> resolved_from_local_header a e (data_offset e1)) /\
       (data_offset e <> 0 -> data_offset e1 = data_offset e) /\
       (name_ptr e1 = name_ptr e /\ name e1 = name e /\
        compressed_size e1 = compressed_size e /\
        uncompressed_size e1 = uncompressed_size e /\
        offset e1 = offset e /\ compression_method e1 = compression_method e) /\
       (forall j : nat, j <> i -> entries a1 !! j = entries a !! j) /\
       (archive_ptr a1 = archive_ptr a /\ io_read a1 = io_read a /\
        io_close a1 = io_close a /\ entries_ptr a1 = entries_ptr a /\
        entry_count a1 = entry_count a /\ total_size a1 = total_size a) /\
       entry f = i /\ position f = 0) /\
  (forall (a1 : ziprand_archive_t) (e1 : ziprand_entry_t),
     entries a1 !! i = Some e1 -> compression_method e1 = 0 -> data_offset e1 <> 0 ->
     forall (h2 h3 : heap) (a2 : option ziprand_archive_t) (v : option ziprand_file_t),
       ziprand_fopen (Some a1) (Some i) h2 = Returns (h3, a2, v) ->
       a2 = Some a1 /\
       (forall f2 : ziprand_file_t, v = Some f2 -> entry f2 = i /\ position f2 = 0)).
Proof.
  intros He Hm.
  assert (Hstart : ziprand_fopen (Some a) (Some i) h
                   = if data_offset e =? 0 then
                       r ← get_data_offset a e;
                       match r with
                       | ERR _ => Returns (h, Some a, None)
                       | OK e' => fopen_view (set_entry a i e') i h
                       end
                     else fopen_view a i h).
  { unfold ziprand_fopen. rewrite He. cbn [defined mbind run_bind].
    rewrite Hm. reflexivity. }
  split; [| split; [| split; [| split; [| split; [| split]]]]].
  - intros Hz. rewrite Hstart, Hz. cbn [Z.eqb]. split; [| split].
    + intros r sig hdr Hr Hbad.
      destruct (get_data_offset_fails a e r sig hdr Hr Hbad) as [c Hc].
      rewrite Hc. reflexivity.
    + intros d Hd.
      rewrite (proj2 (get_data_offset_ok a e (set_data_offset e d)))
        by (exists d; split; [exact Hd | reflexivity]).
      reflexivity.
    + intros h' a' f.
      destruct (get_data_offset a e) as [[e' | c] |] eqn:Hg; cbn [mbind run_bind];
        [| discriminate | discriminate].
      apply get_data_offset_ok in Hg. destruct Hg as (d & Hd & ->).
      unfold fopen_view.
      destruct (malloc sizeof_file h) as [[pf |] h1]; intros H; inversion H; subst.
      exists d. split; [exact Hd | reflexivity].
  - intros Hnz. rewrite Hstart.
    destruct (Z.eqb_spec (data_offset e) 0); [contradiction | reflexivity].
  - intros Hinv h' a' v Hopen.
    rewrite Hstart in Hopen.
    destruct (data_offset e =? 0).
    + destruct (get_data_offset a e) as [[e' | c] |] eqn:Hg; cbn [mbind run_bind] in Hopen;
        [| | discriminate].
      * apply get_data_offset_ok in Hg. destruct Hg as (d & Hd & ->).
        unfold fopen_view in Hopen.
        destruct (malloc sizeof_file h) as [[pf |] h1]; inversion Hopen as [[Hh Ha' Hv]];
          apply data_offsets_inv_set_entry; assumption.
      * inversion Hopen as [[Hh Ha' Hv]]. rewrite <- Ha'. exact Hinv.
    + unfold fopen_view in Hopen.
      destruct (malloc sizeof_file h) as [[pf |] h1]; inversion Hopen as [[Hh Ha' Hv]];
        rewrite <- Ha'; exact Hinv.
  - intros hdr fl el Hfl Hel Hoff Hfit.
    unfold read_u16_le in Hfl, Hel.
    destruct (load hdr 26), (load hdr (26 + 1)), (load hdr 28), (load hdr (28 + 1));
      cbn in Hfl, Hel; try discriminate.
    inversion Hfl; inversion Hel; subst fl el.
    apply u64_small. unfold u16, two16 in *.
    pose proof (Z.mod_pos_bound (Z.lor z (z0 ≪ 8)) 65536 ltac:(lia)).
    pose proof (Z.mod_pos_bound (Z.lor z1 (z2 ≪ 8)) 65536 ltac:(lia)).
    lia.
  - intros io h0 h1 Hopen j ej Hj. left.
    pose proof (ziprand_open_data_offsets _ _ _ _ Hopen) as Hall.
    rewrite Forall_lookup in Hall. eapply Hall, Hj.
  - intros h' a' f Hopen. rewrite Hstart in Hopen.
    destruct (Z.eqb_spec (data_offset e) 0) as [Hz | Hnz].
    + destruct (get_data_offset a e) as [[e' | c] |] eqn:Hg; cbn [mbind run_bind] in Hopen;
        [| discriminate | discriminate].
      apply get_data_offset_ok in Hg. destruct Hg as (d & Hd & ->).
      unfold fopen_view in Hopen.
      destruct (malloc sizeof_file h) as [[pf |] h1]; inversion Hopen; subst h' a' f.
      exists (set_entry a i (set_data_offset e d)), (set_data_offset e d).
      split; [reflexivity |]. split.
      { cbn [set_entry entries]. apply list_lookup_insert_eq.
        eapply lookup_lt_Some. exact He. }
      split; [intros _; exact Hd |]. split; [intros Hnz; contradiction |].
      split; [repeat split |]. split.
      { intros j Hj. cbn [set_entry entries].
        apply list_lookup_insert_ne. intros ->. apply Hj. reflexivity. }
      split; [repeat split |]. split; reflexivity.
    + unfold fopen_view in Hopen.
      destruct (malloc sizeof_file h) as [[pf |] h1]; inversion Hopen; subst h' a' f.
      exists a, e. split; [reflexivity |]. split; [exact He |].
      split; [intros Hz; contradiction |]. split; [reflexivity |].
      split; [repeat split |]. split; [reflexivity |].
      split; [repeat split |]. split; reflexivity.
  - intros a1 e1 He1 Hm1 Hnz1 h2 h3 a2 v Hopen.
    unfold ziprand_fopen in Hopen. rewrite He1 in Hopen.
    cbn [defined mbind run_bind] in Hopen. rewrite Hm1 in Hopen.
    change (negb (0 =? 0)) with false in Hopen. cbv iota in Hopen.
    destruct (Z.eqb_spec (data_offset e1) 0); [contradiction |].
    unfold fopen_view in Hopen.
    destruct (malloc sizeof_file h2) as [[pf |] h4]; inversion Hopen; subst.
    + split; [reflexivity |]. intros f2 Hf2. inversion Hf2; subst f2. split; reflexivity.
    + split; [reflexivity |]. intros f2 Hf2. discriminate Hf2.
Qed.

Lemma fopen_resolves_data_offset_witness :
  exists e : ziprand_entry_t,
    entries sample_archive !! 0%nat = Some e /\
    compression_method e = 0 /\
    data_offset e = 0 /\
    resolved_from_local_header sample_archive e 35 /\
    ziprand_fopen (Some sample_archive) (Some 0%nat) (opened sample_zip).1
    = fopen_view (set_entry sample_archive 0 (set_data_offset e 35)) 0 (opened sample_zip).1 /\
    exists (h' : heap) (a1 : ziprand_archive_t) (f : ziprand_file_t) (e1 : ziprand_entry_t),
      ziprand_fopen (Some sample_archive) (Some 0%nat) (opened sample_zip).1
      = Returns (h', Some a1, Some f) /\
      entries a1 !! 0%nat = Some e1 /\ data_offset e1 = 35 /\
      resolved_from_local_header sample_archive e (data_offset e1).
Proof.
  eexists. split; [vm_compute; reflexivity |].
  split; [vm_compute; reflexivity |]. split; [vm_compute; reflexivity |].
  assert (Hd : resolved_from_local_header sample_archive
                 (mk_entry 2%N [Some 97; Some 46; Some 116; Some 120; Some 116; Some 0]
                    5 5 0 0 0) 35).
  { eexists _, 5, 0. repeat split; vm_compute; reflexivity. }
  split; [exact Hd |].
  pose proof (fopen_resolves_data_offset sample_archive 0
                (mk_entry 2%N [Some 97; Some 46; Some 116; Some 120; Some 116; Some 0]
                   5 5 0 0 0)
                (opened sample_zip).1 ltac:(vm_compute; reflexivity) eq_refl)
    as (Hfirst & _ & _ & _ & _ & Hafter & _).
  split; [exact (proj1 (proj2 (Hfirst eq_refl)) 35 Hd) |].
  assert (Hopen : exists h' : heap,
             ziprand_fopen (Some sample_archive) (Some 0%nat) (opened sample_zip).1
             = Returns (h', Some sample_a.1, Some sample_a.2))
    by (eexists; vm_compute; reflexivity).
  destruct Hopen as [h' Hopen].
  destruct (Hafter _ _ _ Hopen) as (a1 & e1 & Ha1 & He1 & Hres & _).
  apply (inj Some) in Ha1. subst a1.
  exists h', sample_a.1, sample_a.2, e1.
  split; [exact Hopen |]. split; [exact He1 |]. split; [| exact (Hres eq_refl)].
  assert (He1' : entries sample_a.1 !! 0%nat
                 = Some (mk_entry 2%N [Some 97; Some 46; Some 116; Some 120; Some 116; Some 0]
                           5 5 0 35 0))
    by (vm_compute; reflexivity).
  rewrite He1' in He1. inversion He1. reflexivity.
Defined.

(** The lengths that count are those of the local header: here the directory
    record has no extra field and the local header has 4 bytes of it, and
    the data are found at 0 + 30 + 1 + 4. *)
Example skewed_data_offset :
  (data_offset <$> entries (fopened skewed_zip 0).1) = [35] /\
  ziprand_fread (fopened skewed_zip 0).1 (Some (fopened skewed_zip 0).2) true 10
  = Returns (mk_read 2 [104; 105], Some (set_position (fopened skewed_zip 0).2 2)).
Proof. split; vm_compute; reflexivity. Qed.

(** ** The announced entry count *)

Lemma open_entries_succeeds (a : ziprand_archive_t) (h : heap) (off : Z)
    (es : list ziprand_entry_t) (h' : heap) (off' : Z) :
  cd_parse a h off es h' off' ->
  forall parsed : list ziprand_entry_t,
    open_entries a h off parsed (length es) = Returns (h', OK (reverse parsed ++ es)).
Proof.
  induction 1 as [h off | h off e h1 off1 es h2 off2 Hread Hrest IH]; intros parsed.
  - cbn. rewrite app_nil_r. reflexivity.
  - cbn [length open_entries]. rewrite Hread. cbn [mbind run_bind].
    rewrite IH, reverse_cons, <- app_assoc. reflexivity.
Qed.

(** What a successful [read_zip64_eocd] has read: the 20 bytes before the
    end of central directory record hold the locator signature, the offset
    stored after it is not 0, and the 56 bytes there start with the ZIP64
    signature and carry the directory offset and the 64-bit entry count. *)
Lemma read_zip64_eocd_ok (a : ziprand_archive_t) (eocd_offset cd n : Z) :
  read_zip64_eocd a eocd_offset = Returns (OK (cd, n)) ->
  exists (search_buf buf : buffer) (zip64_eocd_offset : Z),
    read_into a (if eocd_offset >? 20 then eocd_offset - 20 else 0) (uninit 20) 20
    = (20, search_buf) /\
    zip64_locator_scan search_buf 0 17 = Returns zip64_eocd_offset /\
    zip64_eocd_offset <> 0 /\
    read_into a zip64_eocd_offset (uninit 56) 56 = (56, buf) /\
    read_u32_le buf 0 = Some ZIP64_EOCD_SIGNATURE /\
    read_u64_le buf 48 = Some cd /\
    read_u64_le buf 32 = Some n.
Proof.
  unfold read_zip64_eocd. intros H.
  destruct (read_into a _ (uninit 20) 20) as [r search_buf] eqn:Hr.
  destruct (Z.eqb_spec r 20) as [-> | Hne]; cbn [negb] in H; [| discriminate].
  destruct (zip64_locator_scan search_buf 0 17) as [z |] eqn:Hscan;
    cbn [mbind run_bind] in H; [| discriminate].
  destruct (Z.eqb_spec z 0) as [-> | Hz]; [discriminate |].
  destruct (read_into a z (uninit 56) 56) as [r2 buf] eqn:Hr2.
  destruct (Z.eqb_spec r2 56) as [-> | Hne]; cbn [negb] in H; [| discriminate].
  destruct (read_u32_le buf 0) as [sig |] eqn:Hsig; cbn [defined mbind run_bind] in H;
    [| discriminate].
  destruct (Z.eqb_spec sig ZIP64_EOCD_SIGNATURE) as [-> | Hne]; cbn [negb] in H;
    [| discriminate].
  destruct (read_u64_le buf 48) as [cd' |] eqn:Hcd; cbn [defined mbind run_bind] in H;
    [| discriminate].
  destruct (read_u64_le buf 32) as [n' |] eqn:Hn; cbn [defined mbind run_bind] in H;
    [| discriminate].
  inversion H; subst. exists search_buf, buf, z. repeat split; assumption.
Qed.

(** For any source: once [find_eocd] has located the end of central
    directory record and its 22 bytes are read, [get_cd_info] hands over to
    [read_zip64_eocd] exactly when the 32-bit directory offset of the record
    is 0xFFFFFFFF, and then the count is the 64-bit field of the ZIP64
    record; in every other case it returns the 32-bit offset and the 16-bit
    count of the record as they are, so that a count of 65535 is taken
    literally, whether or not ZIP64 records are present.  Whatever count
    [get_cd_info] returns, if the table is allocated and that many entries
    parse one after the other from the directory offset, [ziprand_open]
    returns the archive holding exactly these entries. *)
Lemma get_cd_info_any_source (rd : ziprand_read_fn) (sz : Z) (cl : bool) (h h1 : heap) (pa : N)
    (eocd_offset entries_16 cd_offset_32 : Z) (eocd_buf : buffer) :
  malloc (1 * sizeof_archive) h = (Some pa, h1) ->
  0 <= sz ->
  find_eocd (fresh_archive pa rd cl sz) = Returns (OK (eocd_offset, entries_16)) ->
  read_into (fresh_archive pa rd cl sz) eocd_offset (uninit 22) 22 = (22, eocd_buf) ->
  read_u32_le eocd_buf 16 = Some cd_offset_32 ->
  (cd_offset_32 = 0xFFFFFFFF ->
     get_cd_info (fresh_archive pa rd cl sz)
     = read_zip64_eocd (fresh_archive pa rd cl sz) eocd_offset) /\
  (cd_offset_32 <> 0xFFFFFFFF ->
     get_cd_info (fresh_archive pa rd cl sz) = Returns (OK (cd_offset_32, entries_16))) /\
  (forall (cd n : Z),
     read_zip64_eocd (fresh_archive pa rd cl sz) eocd_offset = Returns (OK (cd, n)) ->
     exists (buf : buffer) (zip64_eocd_offset : Z),
       zip64_eocd_offset <> 0 /\
       read_into (fresh_archive pa rd cl sz) zip64_eocd_offset (uninit 56) 56 = (56, buf) /\
       read_u32_le buf 0 = Some ZIP64_EOCD_SIGNATURE /\
       read_u64_le buf 48 = Some cd /\
       read_u64_le buf 32 = Some n) /\
  (forall (cd n : Z) (pe : N) (h2 : heap) (es : list ziprand_entry_t) (h3 : heap) (off' : Z),
     get_cd_info (fresh_archive pa rd cl sz) = Returns (OK (cd, n)) ->
     malloc (n * sizeof_entry) h1 = (Some pe, h2) ->
     cd_parse (fresh_archive pa rd cl sz) h2 cd es h3 off' ->
     length es = Z.to_nat n ->
     ziprand_open (Some (mk_io (Some rd) (Some sz) cl)) h
     = Returns (h3, Some (mk_archive pa rd cl (Some pe) es n (u64 sz)))).
Proof.
  intros Hpa Hsz Hfind Hread Hoff.
  assert (Hinfo : get_cd_info (fresh_archive pa rd cl sz)
                  = if cd_offset_32 =? 0xFFFFFFFF
                    then read_zip64_eocd (fresh_archive pa rd cl sz) eocd_offset
                    else Returns (OK (cd_offset_32, entries_16))).
  { unfold get_cd_info. rewrite Hfind. cbn [mbind run_bind]. rewrite Hread.
    cbn [negb Z.eqb Pos.eqb]. rewrite Hoff. reflexivity. }
  split; [| split; [| split]].
  - intros ->. exact Hinfo.
  - intros Hne. rewrite Hinfo.
    destruct (Z.eqb_spec cd_offset_32 0xFFFFFFFF); [contradiction | reflexivity].
  - intros cd n Hz.
    destruct (read_zip64_eocd_ok _ _ _ _ Hz) as (sb & buf & z & _ & _ & Hnz & Hr & Hs & Hc & Hn).
    exists buf, z. repeat split; assumption.
  - intros cd n pe h2 es h3 off' Hcd Hpe Hes Hlen.
    rewrite (ziprand_open_unfold rd sz cl h h1 h2 pa pe cd n Hpa Hsz Hcd Hpe).
    rewrite <- Hlen, (open_entries_succeeds _ _ _ _ _ _ Hes []).
    reflexivity.
Qed.

Example get_cd_info_any_source_sample :
  get_cd_info (fresh_archive 0%N (memory_read (bytes sample_zip) 499) true 499)
  = Returns (OK (375, 2)) /\
  exists (h3 : heap) (es : list ziprand_entry_t),
    ziprand_open (Some (mk_io (Some (memory_read (bytes sample_zip) 499)) (Some 499) true))
      heap0
    = Returns (h3, Some (mk_archive 0%N (memory_read (bytes sample_zip) 499) true
                           (Some 1%N) es 2 (u64 499))) /\
    length es = 2%nat.
Proof.
  destruct (get_cd_info_any_source (memory_read (bytes sample_zip) 499) 499 true heap0
              (mk_heap {[0%N := 56]} 1%N (fun _ _ => true)) 0%N 477 2 375
              (store (uninit 22) (drop 477 sample_zip)))
    as (_ & Hlegacy & _ & Hopen).
  - vm_compute; reflexivity.
  - lia.
  - vm_compute; reflexivity.
  - vm_compute; reflexivity.
  - vm_compute; reflexivity.
  - split; [apply Hlegacy; vm_compute; discriminate |].
    eexists _, _. split.
    + eapply (Hopen 375 2).
      * apply Hlegacy. vm_compute; discriminate.
      * vm_compute; reflexivity.
      * econstructor; [vm_compute; reflexivity |].
        econstructor; [vm_compute; reflexivity |]. constructor.
      * reflexivity.
    + reflexivity.
Qed.

(** ** Reading from the in-memory source *)

Lemma length_uninit (n : Z) : length (uninit n) = Z.to_nat n.
Proof. unfold uninit. apply length_replicate. Qed.

Lemma length_store (buf : buffer) (l : list Z) :
  (length l <= length buf)%nat -> length (store buf l) = length buf.
Proof.
  intros Hl. unfold store.
  rewrite length_app, length_fmap, length_take, length_drop. lia.
Qed.

(** A cell that the callback wrote holds the byte written there. *)
Lemma load_store_new (buf : buffer) (l : list Z) (i b : Z) :
  0 <= i -> l !! Z.to_nat i = Some b -> (length l <= length buf)%nat ->
  load (store buf l) i = Some (u8 b).
Proof.
  intros Hi Hb Hl. unfold load, store.
  destruct (Z.ltb_spec i 0); [lia |].
  rewrite take_ge by exact Hl.
  rewrite lookup_app_l by (rewrite length_fmap; eapply lookup_lt_Some; exact Hb).
  rewrite list_lookup_fmap, Hb. reflexivity.
Qed.

(** The cells behind what the callback wrote keep their content. *)
Lemma load_store_old (buf : buffer) (l : list Z) (i : Z) :
  Z.of_nat (length l) <= i -> (length l <= length buf)%nat ->
  load (store buf l) i = load buf i.
Proof.
  intros Hi Hl. unfold load, store.
  destruct (Z.ltb_spec i 0); [lia |].
  rewrite take_ge by exact Hl.
  rewrite lookup_app_r by (rewrite length_fmap; lia).
  rewrite length_fmap, lookup_drop. do 2 f_equal. lia.
Qed.

Lemma load_uninit (n i : Z) : load (uninit n) i = None.
Proof.
  unfold load, uninit. destruct (i <? 0); [reflexivity |].
  destruct (replicate (Z.to_nat n) None !! Z.to_nat i) as [c |] eqn:Hc; [| reflexivity].
  apply lookup_replicate in Hc. destruct Hc as [-> _]. reflexivity.
Qed.

(** A read that lies inside the memory region is served in full. *)
Lemma memory_read_inside (mem : Z -> Z) (msize off size : Z) :
  0 <= size -> off < msize -> off + size <= msize ->
  memory_read mem msize off size = mk_read size (mem <$> seqZ off size).
Proof.
  intros Hsize Hoff Hend. unfold memory_read.
  destruct (Z.geb_spec off msize); [lia |].
  destruct (Z.ltb_spec size (msize - off)); [reflexivity |].
  replace (msize - off) with size by lia. reflexivity.
Qed.

Lemma read_into_memory (a : ziprand_archive_t) (mem : Z -> Z) (msize off size : Z)
    (buf : buffer) :
  io_read a = memory_read mem msize ->
  0 <= size -> off < msize -> off + size <= msize ->
  read_into a off buf size = (size, store buf (mem <$> seqZ off size)).
Proof.
  intros Hio Hsize Hoff Hend. unfold read_into.
  rewrite Hio, memory_read_inside by assumption. cbn [ret data].
  rewrite take_ge by (rewrite length_fmap, length_seqZ; lia). reflexivity.
Qed.

(** The bytes of a chunk read from memory. *)
Lemma load_chunk (buf : buffer) (mem : Z -> Z) (off size i : Z) :
  0 <= i < size -> (Z.to_nat size <= length buf)%nat ->
  load (store buf (mem <$> seqZ off size)) i = Some (u8 (mem (off + i))).
Proof.
  intros Hi Hcap. apply load_store_new; [lia | |].
  - rewrite list_lookup_fmap, lookup_seqZ_lt by lia.
    cbn. do 3 f_equal. lia.
  - rewrite length_fmap, length_seqZ. exact Hcap.
Qed.

Lemma load_chunk_old (buf : buffer) (mem : Z -> Z) (off size i : Z) :
  0 <= size <= i -> (Z.to_nat size <= length buf)%nat ->
  load (store buf (mem <$> seqZ off size)) i = load buf i.
Proof.
  intros Hi Hcap. apply load_store_old; rewrite length_fmap, length_seqZ; lia.
Qed.

(** ** Little-endian values *)

Lemma lor_shiftl_add (lo hi n : Z) :
  0 <= n -> 0 <= lo < 2 ^ n -> 0 <= hi ->
  Z.lor lo (Z.shiftl hi n) = lo + hi * 2 ^ n.
Proof.
  intros Hn Hlo Hhi. rewrite Z.shiftl_mul_pow2 by exact Hn.
  assert (Hland : Z.land lo (hi * 2 ^ n) = 0).
  { apply Z.bits_inj'. intros m Hm. rewrite Z.land_spec, Z.bits_0.
    destruct (Z.lt_ge_cases m n) as [Hlt | Hge].
    - rewrite Z.mul_pow2_bits_low by lia. apply andb_false_r.
    - destruct (Z.eq_dec lo 0) as [-> | Hne]; [rewrite Z.bits_0; reflexivity |].
      rewrite (Z.bits_above_log2 lo m); [reflexivity | lia |].
      apply Z.log2_lt_pow2; [lia |].
      apply Z.lt_le_trans with (2 ^ n); [lia |].
      apply Z.pow_le_mono_r; lia. }
  rewrite <- Z.lxor_lor by exact Hland.
  symmetry. apply Z.add_nocarry_lxor. exact Hland.
Qed.

Lemma u8_range (x : Z) : 0 <= u8 x < 256.
Proof. unfold u8, two8. apply Z.mod_pos_bound. lia. Qed.

Lemma read_u32_le_value (p : list (option Z)) (i b0 b1 b2 b3 : Z) :
  load p i = Some b0 -> load p (i + 1) = Some b1 ->
  load p (i + 2) = Some b2 -> load p (i + 3) = Some b3 ->
  0 <= b0 < 256 -> 0 <= b1 < 256 -> 0 <= b2 < 256 -> 0 <= b3 < 256 ->
  read_u32_le p i = Some (le32 b0 b1 b2 b3).
Proof.
  intros H0 H1 H2 H3 R0 R1 R2 R3. unfold read_u32_le.
  rewrite H0, H1, H2, H3. cbn [mbind option_bind]. f_equal.
  rewrite (lor_shiftl_add b0 b1 8) by lia.
  rewrite (lor_shiftl_add (b0 + b1 * 2 ^ 8) b2 16) by lia.
  rewrite (lor_shiftl_add (b0 + b1 * 2 ^ 8 + b2 * 2 ^ 16) b3 24) by lia.
  unfold u32, two32, le32. rewrite Z.mod_small by lia. lia.
Qed.

Lemma read_u16_le_value (p : list (option Z)) (i b0 b1 : Z) :
  load p i = Some b0 -> load p (i + 1) = Some b1 ->
  0 <= b0 < 256 -> 0 <= b1 < 256 ->
  read_u16_le p i = Some (b0 + 256 * b1).
Proof.
  intros H0 H1 R0 R1. unfold read_u16_le.
  rewrite H0, H1. cbn [mbind option_bind]. f_equal.
  rewrite (lor_shiftl_add b0 b1 8) by lia.
  unfold u16, two16. rewrite Z.mod_small by lia. lia.
Qed.

Lemma read_u32_le_chunk (buf : list (option Z)) (mem : Z -> Z) (off size i : Z) :
  0 <= i -> i + 4 <= size -> (Z.to_nat size <= length buf)%nat ->
  read_u32_le (store buf (mem <$> seqZ off size)) i = Some (mem_u32 mem (off + i)).
Proof.
  intros Hi Hend Hcap. unfold mem_u32.
  apply read_u32_le_value; try apply u8_range.
  - rewrite load_chunk by lia. reflexivity.
  - rewrite load_chunk by lia. do 3 f_equal. lia.
  - rewrite load_chunk by lia. do 3 f_equal. lia.
  - rewrite load_chunk by lia. do 3 f_equal. lia.
Qed.

Lemma read_u16_le_chunk (buf : list (option Z)) (mem : Z -> Z) (off size i : Z) :
  0 <= i -> i + 2 <= size -> (Z.to_nat size <= length buf)%nat ->
  read_u16_le (store buf (mem <$> seqZ off size)) i = Some (mem_u16 mem (off + i)).
Proof.
  intros Hi Hend Hcap. unfold mem_u16.
  apply read_u16_le_value; try apply u8_range.
  - rewrite load_chunk by lia. reflexivity.
  - rewrite load_chunk by lia. do 3 f_equal. lia.
Qed.

(** Four bytes are the signature only if the first one is 0x50. *)
Lemma mem_u32_first_byte (mem : Z -> Z) (x : Z) :
  u8 (mem x) <> 80 -> mem_u32 mem x <> EOCD_SIGNATURE.
Proof.
  intros Hb. unfold mem_u32, le32, EOCD_SIGNATURE.
  pose proof (u8_range (mem x)). pose proof (u8_range (mem (x + 1))).
  pose proof (u8_range (mem (x + 2))). pose proof (u8_range (mem (x + 3))).
  lia.
Qed.

(** ** The scan of one chunk *)

(** Positions that do not hold the signature are passed over. *)
Lemma find_eocd_scan_none (a : ziprand_archive_t) (buf : list (option Z))
    (bytes_read read_pos : Z) (k : nat) :
  (forall i : Z, 0 <= i < Z.of_nat k ->
     exists v : Z, read_u32_le buf i = Some v /\ v <> EOCD_SIGNATURE) ->
  find_eocd_scan a buf bytes_read read_pos k = Returns None.
Proof.
  induction k as [| k IH]; intros Hno; [reflexivity |].
  cbn [find_eocd_scan].
  destruct (Hno (Z.of_nat k) ltac:(lia)) as (v & Hv & Hne).
  rewrite Hv. cbn [defined mbind run_bind].
  destruct (Z.eqb_spec v EOCD_SIGNATURE); [contradiction |].
  apply IH. intros i Hi. apply Hno. lia.
Qed.

(** The scan stops at the last position of the chunk that holds the
    signature; when the two bytes of the entry count lie inside the chunk
    they are taken from it. *)
Lemma find_eocd_scan_found (a : ziprand_archive_t) (buf : list (option Z))
    (bytes_read read_pos : Z) (k : nat) (i0 n : Z) :
  0 <= i0 < Z.of_nat k ->
  read_u32_le buf i0 = Some EOCD_SIGNATURE ->
  (forall i : Z, i0 < i < Z.of_nat k ->
     exists v : Z, read_u32_le buf i = Some v /\ v <> EOCD_SIGNATURE) ->
  i0 + 10 < bytes_read ->
  read_u16_le buf (i0 + 10) = Some n ->
  find_eocd_scan a buf bytes_read read_pos k = Returns (Some (OK (u64 (read_pos + i0), n))).
Proof.
  intros Hi0 Hsig Hno Hin Hn.
  induction k as [| k IH]; [lia |].
  cbn [find_eocd_scan].
  destruct (Z.eq_dec i0 (Z.of_nat k)) as [<- | Hne].
  - rewrite Hsig. cbn [defined mbind run_bind]. rewrite Z.eqb_refl.
    destruct (Z.ltb_spec (i0 + 10) bytes_read); [| lia].
    rewrite Hn. reflexivity.
  - destruct (Hno (Z.of_nat k) ltac:(lia)) as (v & Hv & Hnv).
    rewrite Hv. cbn [defined mbind run_bind].
    destruct (Z.eqb_spec v EOCD_SIGNATURE); [contradiction |].
    apply IH; [lia |]. intros i Hi. apply Hno. lia.
Qed.

(** ** One iteration of the loop of [find_eocd] over a memory source *)

Lemma find_eocd_loop_unfold (a : ziprand_archive_t) (buf : list (option Z))
    (file_size max_search search_pos : Z) (fuel : nat) :
  find_eocd_loop a buf file_size max_search search_pos (S fuel)
  = (if search_pos >? file_size - max_search then
       let chunk_size := search_pos - (file_size - max_search) in
       let chunk_size := if chunk_size >? 8192 then 8192 else chunk_size in
       let read_pos := search_pos - chunk_size in
       let '(bytes_read, buf) := read_into a read_pos buf chunk_size in
       if bytes_read <=? 0 then Returns (ERR ZIPRAND_ERR_IO)
       else
         found ← find_eocd_scan a buf bytes_read read_pos (Z.to_nat (bytes_read - 4 + 1));
         match found with
         | Some r => Returns r
         | None =>
             let search_pos := read_pos in
             if search_pos <? 3 then Returns (ERR ZIPRAND_ERR_INVALID_ZIP)
             else find_eocd_loop a buf file_size max_search search_pos fuel
         end
     else Returns (ERR ZIPRAND_ERR_INVALID_ZIP)).
Proof. reflexivity. Qed.

(** An iteration over a memory source: the chunk is read in full into the
    array and scanned. *)
Lemma find_eocd_loop_memory (a : ziprand_archive_t) (mem : Z -> Z) (msize : Z)
    (buf : list (option Z)) (file_size max_search search_pos : Z) (fuel : nat) :
  io_read a = memory_read mem msize ->
  Z.of_nat (length buf) = 8192 ->
  file_size - max_search < search_pos <= msize ->
  0 <= file_size - max_search ->
  find_eocd_loop a buf file_size max_search search_pos (S fuel)
  = (found ← find_eocd_scan a
               (store buf (mem <$> seqZ (search_pos - chunk_size_at file_size max_search search_pos)
                                     (chunk_size_at file_size max_search search_pos)))
               (chunk_size_at file_size max_search search_pos)
               (search_pos - chunk_size_at file_size max_search search_pos)
               (Z.to_nat (chunk_size_at file_size max_search search_pos - 4 + 1));
     match found with
     | Some r => Returns r
     | None =>
         if search_pos - chunk_size_at file_size max_search search_pos <? 3
         then Returns (ERR ZIPRAND_ERR_INVALID_ZIP)
         else find_eocd_loop a
                (store buf (mem <$> seqZ (search_pos - chunk_size_at file_size max_search search_pos)
                                      (chunk_size_at file_size max_search search_pos)))
                file_size max_search
                (search_pos - chunk_size_at file_size max_search search_pos) fuel
     end).
Proof.
  intros Hio Hlen Hpos Hlo.
  rewrite find_eocd_loop_unfold.
  destruct (Z.gtb_spec search_pos (file_size - max_search)); [| lia].
  cbv zeta.
  assert (Hcs : (if search_pos - (file_size - max_search) >? 8192 then 8192
                 else search_pos - (file_size - max_search))
                = chunk_size_at file_size max_search search_pos).
  { unfold chunk_size_at.
    destruct (Z.gtb_spec (search_pos - (file_size - max_search)) 8192); lia. }
  rewrite Hcs.
  set (cs := chunk_size_at file_size max_search search_pos) in *.
  assert (Hcsr : 0 < cs <= 8192 /\ cs <= search_pos - (file_size - max_search)).
  { subst cs. unfold chunk_size_at. lia. }
  rewrite (read_into_memory a mem msize (search_pos - cs) cs buf Hio) by lia.
  destruct (Z.leb_spec cs 0); [lia |]. reflexivity.
Qed.

(** A chunk in which no position holds the signature is passed over: the
    search goes on below it, unless fewer than 3 bytes are left. *)
Lemma find_eocd_loop_miss (a : ziprand_archive_t) (mem : Z -> Z) (msize : Z)
    (buf : list (option Z)) (file_size max_search search_pos : Z) (fuel : nat) :
  io_read a = memory_read mem msize ->
  Z.of_nat (length buf) = 8192 ->
  file_size - max_search < search_pos <= msize ->
  0 <= file_size - max_search ->
  (forall x : Z,
     search_pos - chunk_size_at file_size max_search search_pos <= x ->
     x + 4 <= search_pos ->
     mem_u32 mem x <> EOCD_SIGNATURE) ->
  find_eocd_loop a buf file_size max_search search_pos (S fuel)
  = (if search_pos - chunk_size_at file_size max_search search_pos <? 3
     then Returns (ERR ZIPRAND_ERR_INVALID_ZIP)
     else find_eocd_loop a
            (store buf (mem <$> seqZ (search_pos - chunk_size_at file_size max_search search_pos)
                                  (chunk_size_at file_size max_search search_pos)))
            file_size max_search
            (search_pos - chunk_size_at file_size max_search search_pos) fuel).
Proof.
  intros Hio Hlen Hpos Hlo Hno.
  rewrite (find_eocd_loop_memory a mem msize) by assumption.
  assert (Hcsr : 0 < chunk_size_at file_size max_search search_pos <= 8192)
    by (unfold chunk_size_at; lia).
  rewrite find_eocd_scan_none; [reflexivity |].
  intros i Hi.
  exists (mem_u32 mem (search_pos - chunk_size_at file_size max_search search_pos + i)).
  split.
  - apply read_u32_le_chunk; lia.
  - apply Hno; lia.
Qed.

(** A property of all addresses of a range, checked by running through it. *)
Lemma forallb_range (P : Z -> bool) (lo n : Z) :
  forallb P (seqZ lo n) = true ->
  forall x : Z, lo <= x < lo + n -> P x = true.
Proof.
  intros Hall x Hx. rewrite forallb_forall in Hall.
  apply Hall. apply list_elem_of_In, elem_of_seqZ. exact Hx.
Qed.

(** The fuel of [find_eocd_loop] does not matter once it exceeds the length
    of what is left of the window; [find_eocd] passes one more than the
    length of the whole window. *)
Lemma find_eocd_loop_fuel (a : ziprand_archive_t) (file_size max_search : Z) (fuel : nat) :
  forall (fuel' : nat) (buf : buffer) (search_pos : Z),
    search_pos - (file_size - max_search) < Z.of_nat fuel ->
    search_pos - (file_size - max_search) < Z.of_nat fuel' ->
    find_eocd_loop a buf file_size max_search search_pos fuel
    = find_eocd_loop a buf file_size max_search search_pos fuel'.
Proof.
  induction fuel as [| fuel IH]; intros fuel' buf search_pos Hf Hf'.
  - destruct fuel' as [| fuel']; [reflexivity |].
    cbn [find_eocd_loop]. destruct (Z.gtb_spec search_pos (file_size - max_search)); [lia |].
    reflexivity.
  - destruct fuel' as [| fuel'].
    + cbn [find_eocd_loop].
      destruct (Z.gtb_spec search_pos (file_size - max_search)); [lia |]. reflexivity.
    + cbn [find_eocd_loop].
      destruct (Z.gtb_spec search_pos (file_size - max_search)) as [Hgt | Hle];
        [| reflexivity].
      destruct (read_into a _ buf _) as [bytes_read buf'].
      destruct (bytes_read <=? 0); [reflexivity |].
      destruct (find_eocd_scan a buf' bytes_read _ _) as [[r |] |]; try reflexivity.
      cbn [mbind run_bind].
      match goal with |- (if ?c then _ else _) = _ => destruct c end; [reflexivity |].
      apply IH; destruct (Z.gtb_spec (search_pos - (file_size - max_search)) 8192); lia.
Qed.

(** The scan stops at the signature; when the guard [i + 10 < bytes_read]
    lets the count be taken from the array but its second byte is not
    there, the run is undefined. *)
Lemma find_eocd_scan_undefined (a : ziprand_archive_t) (buf : list (option Z))
    (bytes_read read_pos : Z) (k : nat) (i0 : Z) :
  0 <= i0 < Z.of_nat k ->
  read_u32_le buf i0 = Some EOCD_SIGNATURE ->
  (forall i : Z, i0 < i < Z.of_nat k ->
     exists v : Z, read_u32_le buf i = Some v /\ v <> EOCD_SIGNATURE) ->
  i0 + 10 < bytes_read ->
  read_u16_le buf (i0 + 10) = None ->
  find_eocd_scan a buf bytes_read read_pos k = Undefined.
Proof.
  intros Hi0 Hsig Hno Hin Hn.
  induction k as [| k IH]; [lia |].
  cbn [find_eocd_scan].
  destruct (Z.eq_dec i0 (Z.of_nat k)) as [<- | Hne].
  - rewrite Hsig. cbn [defined mbind run_bind]. rewrite Z.eqb_refl.
    destruct (Z.ltb_spec (i0 + 10) bytes_read); [| lia].
    rewrite Hn. reflexivity.
  - destruct (Hno (Z.of_nat k) ltac:(lia)) as (v & Hv & Hnv).
    rewrite Hv. cbn [defined mbind run_bind].
    destruct (Z.eqb_spec v EOCD_SIGNATURE); [contradiction |].
    apply IH; [lia |]. intros i Hi. apply Hno. lia.
Qed.

(** A chunk that holds the signature at address [x0], and at no higher
    address, with the entry count inside the chunk as well: the search ends
    there. *)
Lemma find_eocd_loop_hit (a : ziprand_archive_t) (mem : Z -> Z) (msize : Z)
    (buf : list (option Z)) (file_size max_search search_pos : Z) (fuel : nat) (x0 : Z) :
  io_read a = memory_read mem msize ->
  Z.of_nat (length buf) = 8192 ->
  file_size - max_search < search_pos <= msize ->
  0 <= file_size - max_search ->
  search_pos - chunk_size_at file_size max_search search_pos <= x0 ->
  x0 + 12 <= search_pos ->
  mem_u32 mem x0 = EOCD_SIGNATURE ->
  (forall x : Z, x0 < x -> x + 4 <= search_pos -> mem_u32 mem x <> EOCD_SIGNATURE) ->
  find_eocd_loop a buf file_size max_search search_pos (S fuel)
  = Returns (OK (u64 x0, mem_u16 mem (x0 + 10))).
Proof.
  intros Hio Hlen Hpos Hlo Hx0 Hcount Hsig Hno.
  rewrite (find_eocd_loop_memory a mem msize) by assumption.
  set (cs := chunk_size_at file_size max_search search_pos) in *.
  assert (Hcsr : 0 < cs <= 8192) by (subst cs; unfold chunk_size_at; lia).
  rewrite (find_eocd_scan_found _ _ _ _ _ (x0 - (search_pos - cs)) (mem_u16 mem (x0 + 10))).
  - cbn [mbind run_bind].
    replace (search_pos - cs + (x0 - (search_pos - cs))) with x0 by lia. reflexivity.
  - lia.
  - rewrite read_u32_le_chunk by lia. rewrite <- Hsig. do 2 f_equal. lia.
  - intros i Hi. exists (mem_u32 mem (search_pos - cs + i)). split.
    + apply read_u32_le_chunk; lia.
    + apply Hno; lia.
  - lia.
  - rewrite read_u16_le_chunk by lia. do 2 f_equal. lia.
Qed.

(** The same with the signature 11 bytes before the end of a full chunk:
    the second byte of the count would be [buffer[8192]]. *)
Lemma find_eocd_loop_count_outside (a : ziprand_archive_t) (mem : Z -> Z) (msize : Z)
    (buf : list (option Z)) (file_size max_search search_pos : Z) (fuel : nat) (x0 : Z) :
  io_read a = memory_read mem msize ->
  Z.of_nat (length buf) = 8192 ->
  file_size - max_search < search_pos <= msize ->
  0 <= file_size - max_search ->
  chunk_size_at file_size max_search search_pos = 8192 ->
  x0 + 11 = search_pos ->
  mem_u32 mem x0 = EOCD_SIGNATURE ->
  (forall x : Z, x0 < x -> x + 4 <= search_pos -> mem_u32 mem x <> EOCD_SIGNATURE) ->
  find_eocd_loop a buf file_size max_search search_pos (S fuel) = Undefined.
Proof.
  intros Hio Hlen Hpos Hlo Hcs Hx0 Hsig Hno.
  rewrite (find_eocd_loop_memory a mem msize) by assumption.
  rewrite Hcs.
  rewrite (find_eocd_scan_undefined _ _ _ _ _ 8181).
  - reflexivity.
  - lia.
  - rewrite read_u32_le_chunk by lia. rewrite <- Hsig. do 2 f_equal. lia.
  - intros i Hi. exists (mem_u32 mem (search_pos - 8192 + i)). split.
    + apply read_u32_le_chunk; lia.
    + apply Hno; lia.
  - lia.
  - unfold read_u16_le.
    assert (Hout : load (store buf (mem <$> seqZ (search_pos - 8192) 8192)) (8181 + 10 + 1)
                   = None).
    { unfold load. destruct (Z.ltb_spec (8181 + 10 + 1) 0); [reflexivity |].
      rewrite lookup_ge_None_2; [reflexivity |].
      rewrite length_store by (rewrite length_fmap, length_seqZ; lia). lia. }
    rewrite Hout. destruct (load _ (8181 + 10)); reflexivity.
Qed.

(** ** The archives with a long comment *)

Lemma commented_mem_data (comment_len x : Z) :
  31 <= x < 8134 -> commented_mem comment_len x = 65.
Proof.
  intros Hx. unfold commented_mem.
  destruct (Z.ltb_spec x 31); [lia |].
  destruct (Z.ltb_spec x 8134); [reflexivity | lia].
Qed.

Lemma commented_mem_comment (comment_len x : Z) :
  8203 <= x -> commented_mem comment_len x = 99.
Proof.
  intros Hx. unfold commented_mem.
  repeat match goal with
         | |- context [?u <? ?v] => destruct (Z.ltb_spec u v); [lia |]
         end.
  reflexivity.
Qed.

(** In these archives the only address that holds the signature of the end
    of central directory record is 8181: the member data and the comment
    are runs of one byte, and the addresses around the three records are
    checked one by one. *)
Lemma commented_no_sig (comment_len x : Z) :
  forallb (no_sig_at (commented_mem comment_len)) (seqZ 0 31) = true ->
  forallb (no_sig_at (commented_mem comment_len)) (seqZ 8134 47) = true ->
  forallb (no_sig_at (commented_mem comment_len)) (seqZ 8182 21) = true ->
  0 <= x -> x <> 8181 ->
  mem_u32 (commented_mem comment_len) x <> EOCD_SIGNATURE.
Proof.
  intros Hlfh Hcd Heocd Hx Hne.
  assert (Hcheck : forall lo n : Z,
             forallb (no_sig_at (commented_mem comment_len)) (seqZ lo n) = true ->
             lo <= x < lo + n ->
             mem_u32 (commented_mem comment_len) x <> EOCD_SIGNATURE).
  { intros lo n Hall Hin.
    pose proof (forallb_range _ _ _ Hall x Hin) as Hb.
    unfold no_sig_at in Hb. apply negb_true_iff, Z.eqb_neq in Hb. exact Hb. }
  destruct (Z.lt_ge_cases x 31) as [H1 | H1]; [apply (Hcheck 0 31); [assumption | lia] |].
  destruct (Z.lt_ge_cases x 8134) as [H2 | H2].
  { apply mem_u32_first_byte. rewrite commented_mem_data by lia. discriminate. }
  destruct (Z.lt_ge_cases x 8181) as [H3 | H3];
    [apply (Hcheck 8134 47); [assumption | lia] |].
  destruct (Z.lt_ge_cases x 8203) as [H4 | H4];
    [apply (Hcheck 8182 21); [assumption | lia] |].
  apply mem_u32_first_byte. rewrite commented_mem_comment by lia. discriminate.
Qed.

Lemma commented_io (comment_len : Z) :
  io_read (commented_archive comment_len)
  = memory_read (commented_mem comment_len) (commented_size comment_len).
Proof. reflexivity. Qed.

(** The comment of 8172 bytes: both chunks are passed over. *)
Lemma commented_8172_not_found :
  find_eocd (commented_archive 8172) = Returns (ERR ZIPRAND_ERR_INVALID_ZIP).
Proof.
  assert (Hno : forall x : Z, 0 <= x -> x <> 8181 ->
             mem_u32 (commented_mem 8172) x <> EOCD_SIGNATURE).
  { intros x. apply commented_no_sig; vm_compute; reflexivity. }
  unfold find_eocd.
  change (total_size (commented_archive 8172)) with 16375.
  change (if 16375 <? 65557 then 16375 else 65557) with 16375.
  rewrite (find_eocd_loop_miss _ _ _ _ _ _ _ _ (commented_io 8172));
    [| rewrite length_uninit; lia | vm_compute; split; [reflexivity | discriminate]
     | lia | ].
  2: { change (chunk_size_at 16375 16375 16375) with 8192. intros x H1 H2. apply Hno; lia. }
  change (chunk_size_at 16375 16375 16375) with 8192.
  change (16375 - 8192) with 8183. change (8183 <? 3) with false. cbv iota.
  replace (Z.to_nat 16375) with (S (Z.to_nat 16374)) by lia.
  rewrite (find_eocd_loop_miss _ _ _ _ _ _ _ _ (commented_io 8172));
    [| rewrite length_store, length_uninit;
       [lia | rewrite length_fmap, length_seqZ, length_uninit; lia]
     | vm_compute; split; [reflexivity | discriminate]
     | lia | ].
  2: { change (chunk_size_at 16375 16375 8183) with 8183. intros x H1 H2. apply Hno; lia. }
  change (chunk_size_at 16375 16375 8183) with 8183.
  reflexivity.
Qed.

(** The comment of 8170 bytes: the record starts the first chunk. *)
Lemma commented_8170_found :
  find_eocd (commented_archive 8170) = Returns (OK (8181, 1)).
Proof.
  assert (Hno : forall x : Z, 0 <= x -> x <> 8181 ->
             mem_u32 (commented_mem 8170) x <> EOCD_SIGNATURE).
  { intros x. apply commented_no_sig; vm_compute; reflexivity. }
  unfold find_eocd.
  change (total_size (commented_archive 8170)) with 16373.
  change (if 16373 <? 65557 then 16373 else 65557) with 16373.
  rewrite (find_eocd_loop_hit _ _ _ _ _ _ _ _ 8181 (commented_io 8170)).
  - reflexivity.
  - rewrite length_uninit; lia.
  - vm_compute; split; [reflexivity | discriminate].
  - lia.
  - vm_compute; discriminate.
  - lia.
  - reflexivity.
  - intros x H1 H2. apply Hno; lia.
Qed.

(** The comment of 8181 bytes: the first chunk is passed over and the
    record lies 11 bytes before the end of the second. *)
Lemma commented_8181_undefined : find_eocd (commented_archive 8181) = Undefined.
Proof.
  assert (Hno : forall x : Z, 0 <= x -> x <> 8181 ->
             mem_u32 (commented_mem 8181) x <> EOCD_SIGNATURE).
  { intros x. apply commented_no_sig; vm_compute; reflexivity. }
  unfold find_eocd.
  change (total_size (commented_archive 8181)) with 16384.
  change (if 16384 <? 65557 then 16384 else 65557) with 16384.
  rewrite (find_eocd_loop_miss _ _ _ _ _ _ _ _ (commented_io 8181));
    [| rewrite length_uninit; lia | vm_compute; split; [reflexivity | discriminate]
     | lia | ].
  2: { change (chunk_size_at 16384 16384 16384) with 8192. intros x H1 H2. apply Hno; lia. }
  change (chunk_size_at 16384 16384 16384) with 8192.
  change (16384 - 8192) with 8192. change (8192 <? 3) with false. cbv iota.
  replace (Z.to_nat 16384) with (S (Z.to_nat 16383)) by lia.
  apply (find_eocd_loop_count_outside _ _ _ _ _ _ _ _ 8181 (commented_io 8181)).
  - rewrite length_store, length_uninit;
      [lia | rewrite length_fmap, length_seqZ, length_uninit; lia].
  - vm_compute; split; [reflexivity | discriminate].
  - lia.
  - reflexivity.
  - reflexivity.
  - reflexivity.
  - intros x H1 H2. apply Hno; lia.
Qed.

(** When [find_eocd] fails, so does [ziprand_open]: it frees the archive
    block and returns a null pointer. *)
Lemma ziprand_open_no_eocd (rd : ziprand_read_fn) (sz : Z) (cl : bool) (h h1 : heap) (pa : N)
    (e : ziprand_error_t) :
  malloc (1 * sizeof_archive) h = (Some pa, h1) ->
  0 <= sz ->
  find_eocd (fresh_archive pa rd cl sz) = Returns (ERR e) ->
  ziprand_open (Some (mk_io (Some rd) (Some sz) cl)) h = Returns (free pa h1, None).
Proof.
  intros Hpa Hsz Hfind. unfold ziprand_open. rewrite Hpa.
  destruct (Z.ltb_spec sz 0); [lia |].
  unfold get_cd_info. rewrite Hfind. reflexivity.
Qed.

(** What a successful scan has seen: the signature at the position it
    reports, and at no higher position of the chunk. *)
Lemma find_eocd_scan_ok (a : ziprand_archive_t) (buf : buffer) (bytes_read read_pos : Z)
    (k : nat) (off n : Z) :
  find_eocd_scan a buf bytes_read read_pos k = Returns (Some (OK (off, n))) ->
  exists i0 : Z,
    0 <= i0 < Z.of_nat k /\
    read_u32_le buf i0 = Some EOCD_SIGNATURE /\
    off = u64 (read_pos + i0) /\
    (forall i : Z, i0 < i < Z.of_nat k ->
       exists v : Z, read_u32_le buf i = Some v /\ v <> EOCD_SIGNATURE).
Proof.
  induction k as [| k IH]; intros Hscan; [discriminate |].
  cbn [find_eocd_scan] in Hscan.
  destruct (read_u32_le buf (Z.of_nat k)) as [v |] eqn:Hv; [| discriminate].
  cbn [defined mbind run_bind] in Hscan.
  destruct (Z.eqb_spec v EOCD_SIGNATURE) as [-> | Hne].
  - exists (Z.of_nat k). split; [lia |]. split; [exact Hv |]. split; [| intros i Hi; lia].
    destruct (Z.of_nat k + 10 <? bytes_read).
    + destruct (read_u16_le buf (Z.of_nat k + 10)); [| discriminate].
      cbn [defined mbind run_bind] in Hscan. congruence.
    + destruct (read_into a _ (uninit 2) 2) as [r entry_buf].
      destruct (negb (r =? 2)); [discriminate |].
      destruct (read_u16_le entry_buf 0); [| discriminate].
      cbn [defined mbind run_bind] in Hscan. congruence.
  - destruct (IH Hscan) as (i0 & Hi0 & Hsig & Hoff & Hno).
    exists i0. split; [lia |]. split; [exact Hsig |]. split; [exact Hoff |].
    intros i Hi. destruct (Z.eq_dec i (Z.of_nat k)) as [-> | Hik].
    + exists v. split; assumption.
    + apply Hno. lia.
Qed.

(** Over a memory source, an offset that the loop returns holds the
    signature, with its four bytes inside the window. *)
Lemma find_eocd_loop_ok (a : ziprand_archive_t) (mem : Z -> Z) (msize : Z)
    (file_size max_search : Z) (fuel : nat) :
  io_read a = memory_read mem msize ->
  0 <= file_size - max_search ->
  msize < two64 ->
  forall (buf : buffer) (search_pos off n : Z),
    Z.of_nat (length buf) = 8192 ->
    search_pos <= msize ->
    find_eocd_loop a buf file_size max_search search_pos fuel = Returns (OK (off, n)) ->
    file_size - max_search <= off /\ off + 4 <= search_pos /\
    mem_u32 mem off = EOCD_SIGNATURE.
Proof.
  intros Hio Hlo Hsize.
  induction fuel as [| fuel IH]; intros buf search_pos off n Hlen Hpos Hloop;
    [discriminate |].
  destruct (Z.le_gt_cases search_pos (file_size - max_search)) as [Hle | Hgt].
  { rewrite find_eocd_loop_unfold in Hloop.
    destruct (Z.gtb_spec search_pos (file_size - max_search)); [lia | discriminate]. }
  rewrite (find_eocd_loop_memory a mem msize) in Hloop by (assumption || lia).
  set (cs := chunk_size_at file_size max_search search_pos) in *.
  assert (Hcs : 0 < cs <= 8192 /\ cs <= search_pos - (file_size - max_search))
    by (subst cs; unfold chunk_size_at; lia).
  destruct (find_eocd_scan a _ cs (search_pos - cs) _) as [[[[off1 n1] | c] |] |] eqn:Hscan;
    cbn [mbind run_bind] in Hloop; try discriminate.
  - injection Hloop as -> ->.
    destruct (find_eocd_scan_ok _ _ _ _ _ _ _ Hscan) as (i0 & Hi0 & Hsig & -> & _).
    rewrite read_u32_le_chunk in Hsig by lia.
    injection Hsig as Hsig.
    unfold two64 in Hsize. rewrite u64_small by (unfold two64; lia).
    split; [lia |]. split; [lia |]. exact Hsig.
  - destruct (search_pos - cs <? 3); [discriminate |].
    apply IH in Hloop; [lia | | lia].
    rewrite length_store; [exact Hlen |].
    rewrite length_fmap, length_seqZ. lia.
Qed.

(** Over a memory source whose window holds the signature nowhere, the
    loop ends with ZIPRAND_ERR_INVALID_ZIP, whatever the fuel. *)
Lemma find_eocd_loop_no_signature (a : ziprand_archive_t) (mem : Z -> Z) (msize : Z)
    (file_size max_search : Z) (fuel : nat) :
  io_read a = memory_read mem msize ->
  0 <= file_size - max_search ->
  (forall x : Z, file_size - max_search <= x -> x + 4 <= msize ->
     mem_u32 mem x <> EOCD_SIGNATURE) ->
  forall (buf : buffer) (search_pos : Z),
    Z.of_nat (length buf) = 8192 ->
    search_pos <= msize ->
    find_eocd_loop a buf file_size max_search search_pos fuel
    = Returns (ERR ZIPRAND_ERR_INVALID_ZIP).
Proof.
  intros Hio Hlo Hno.
  induction fuel as [| fuel IH]; intros buf search_pos Hlen Hpos; [reflexivity |].
  destruct (Z.le_gt_cases search_pos (file_size - max_search)) as [Hle | Hgt].
  - rewrite find_eocd_loop_unfold.
    destruct (Z.gtb_spec search_pos (file_size - max_search)); [lia | reflexivity].
  - assert (Hcs : 0 < chunk_size_at file_size max_search search_pos <= 8192 /\
                  chunk_size_at file_size max_search search_pos
                  <= search_pos - (file_size - max_search))
      by (unfold chunk_size_at; lia).
    rewrite (find_eocd_loop_miss a mem msize) by (assumption || lia || (intros; apply Hno; lia)).
    destruct (_ <? 3); [reflexivity |].
    apply IH; [| lia].
    rewrite length_store; [exact Hlen |].
    rewrite length_fmap, length_seqZ. lia.
Qed.

(** A memory source without the signature in its search window: [find_eocd]
    returns ZIPRAND_ERR_INVALID_ZIP and [ziprand_open] a null pointer, with
    the archive block freed. *)
Lemma find_eocd_no_signature (mem : Z -> Z) (msize : Z) (pa : N) :
  0 < msize < two63 ->
  (forall x : Z, msize - Z.min msize 65557 <= x -> x + 4 <= msize ->
     mem_u32 mem x <> EOCD_SIGNATURE) ->
  find_eocd (fresh_archive pa (memory_read mem msize) true msize)
  = Returns (ERR ZIPRAND_ERR_INVALID_ZIP) /\
  forall h h1 : heap,
    malloc (1 * sizeof_archive) h = (Some pa, h1) ->
    ziprand_open (ziprand_io_memory (Some mem) msize) h = Returns (free pa h1, None).
Proof.
  intros Hsize Hno.
  assert (Hfind : find_eocd (fresh_archive pa (memory_read mem msize) true msize)
                  = Returns (ERR ZIPRAND_ERR_INVALID_ZIP)).
  { unfold find_eocd. cbn [total_size fresh_archive].
    unfold two63 in Hsize. rewrite u64_small by (unfold two64; lia).
    apply (find_eocd_loop_no_signature _ mem msize).
    - reflexivity.
    - destruct (Z.ltb_spec msize 65557); lia.
    - intros x Hx Hend. apply Hno; [| exact Hend].
      destruct (Z.ltb_spec msize 65557); lia.
    - rewrite length_uninit. lia.
    - lia. }
  split; [exact Hfind |].
  intros h h1 Hpa. unfold ziprand_io_memory.
  destruct (Z.eqb_spec msize 0); [lia |].
  unfold two63 in Hsize. rewrite i64_small by (unfold two63; lia).
  apply (ziprand_open_no_eocd _ _ _ _ _ _ ZIPRAND_ERR_INVALID_ZIP Hpa); [lia |].
  exact Hfind.
Qed.

(** C1: on the archive with one stored member and an archive comment of
    8172 bytes (16375 bytes in all) the signature 0x06054b50 of the end of
    central directory record sits at offset 8181, inside the search window,
    with its first two bytes in the second chunk read from the end and its
    last two in the first; [find_eocd] examines neither chunk across the
    boundary, returns ZIPRAND_ERR_INVALID_ZIP, and [ziprand_open] returns a
    null pointer.  With a comment of 8170 bytes the same record starts a
    chunk and is found, with its entry count 1.  With a comment of 8181
    bytes the record is found at index 8181 of the second chunk and the
    second byte of its entry count is read from index 8192 of the 8192-byte
    array. *)
Theorem find_eocd_misses_straddling_signature :
  read_u32_le (store (uninit 4)
                 (data (memory_read (commented_mem 8172) (commented_size 8172) 8181 4))) 0
  = Some EOCD_SIGNATURE /\
  find_eocd (commented_archive 8172) = Returns (ERR ZIPRAND_ERR_INVALID_ZIP) /\
  (exists h' : heap,
     ziprand_open (ziprand_io_memory (Some (commented_mem 8172)) (commented_size 8172)) heap0
     = Returns (h', None)) /\
  find_eocd (commented_archive 8170) = Returns (OK (8181, 1)) /\
  find_eocd (commented_archive 8181) = Undefined.
Proof.
  split; [vm_compute; reflexivity |]. split; [exact commented_8172_not_found |].
  split; [| split; [exact commented_8170_found | exact commented_8181_undefined]].
  eexists.
  exact (ziprand_open_no_eocd (memory_read (commented_mem 8172) (commented_size 8172))
           (commented_size 8172) true heap0 _ 0%N _ eq_refl ltac:(discriminate)
           commented_8172_not_found).
Qed.

(** ** A directory record without extra field, read from memory *)



(** ** The archive of 65536 members *)











(** ** 64-bit values *)







(** ** Where [find_eocd] finds the record *)



(** ** [get_cd_info] and [read_zip64_eocd] on a memory source *)




(** ** Parsing a well-formed directory *)






(** ** The archives with a given number of members *)







(** The offset 0 is taken for "no locator found": the archive of this
    family without members and with ZIP64 records, whose ZIP64 end of
    central directory record stands at offset 0, is refused. *)
Example empty_zip64_refused :
  mem_u64 (counted_mem 0 true) (76 - 12) = 0 /\
  read_zip64_eocd
    (fresh_archive 0%N (memory_read (counted_mem 0 true) (counted_size 0 true)) true
       (counted_size 0 true)) 76
  = Returns (ERR ZIPRAND_ERR_INVALID_ZIP) /\
  exists h' : heap,
    ziprand_open (ziprand_io_memory (Some (counted_mem 0 true)) (counted_size 0 true)) heap0
    = Returns (h', None).
Proof.
  split; [vm_compute; reflexivity |]. split; [vm_compute; reflexivity |].
  eexists. vm_compute. reflexivity.
Qed.
